(** * Sunlight: the state controller of the lighting-effect page

    A shallow embedding of [App], the page component, of [ImageDisplay]
    and of the declarations of [types.ts].  React state is a record; every
    [useState] setter is a constructor of [Setter]; an event handler is a
    [Task] that closes over the state of the render it was created in,
    writes through setters and may suspend on one outside request (the
    remote effect call, or the browser's file reader). *)

From Stdlib Require Import Ascii.
From stdpp Require Import base option list strings.

(** ** types.ts *)

(** [base64] is [None] when the data URL handed over by the file reader
    holds no comma, in which case [split(',')[1]] is [undefined]. *)
Record ImageFile := {
  base64 : option string;
  mimeType : string;
  name : string
}.

Inductive LightingEffect :=
| sunlight
| shadows
| sunlight_and_shadows
| remove_sunlight
| remove_shadows
| remove_sunlight_and_shadows.

(** [SunlightIntensity] is the union [1 | 2 | 3]. *)
Inductive SunlightIntensity := Intensity1 | Intensity2 | Intensity3.

Module SunlightDirection.
Inductive t := top | left | center | right | bottom.
End SunlightDirection.

(** The effects are string literals at run time; this is their text. *)
Definition effect_text (e : LightingEffect) : string :=
  match e with
  | sunlight => "sunlight"
  | shadows => "shadows"
  | sunlight_and_shadows => "sunlight-and-shadows"
  | remove_sunlight => "remove-sunlight"
  | remove_shadows => "remove-shadows"
  | remove_sunlight_and_shadows => "remove-sunlight-and-shadows"
  end.

(** ** The state of [App] *)

(** [ActiveProcess = LightingEffect | 'variation' | null]: the non-null
    tags are [ProcessTag], and [null] is [None]. *)
Inductive ProcessTag :=
| effectTag (e : LightingEffect)
| variation.

Definition ActiveProcess := option ProcessTag.

Record EffectConfig := {
  effect : LightingEffect;
  intensity : SunlightIntensity;
  direction : SunlightDirection.t
}.

Record AppState := {
  originalImage : option ImageFile;
  generatedImage : option string;
  isLoading : bool;
  error : option string;
  activeProcess : ActiveProcess;
  sunlightIntensity : SunlightIntensity;
  sunlightDirection : SunlightDirection.t;
  lastAppliedConfig : option EffectConfig;
  isAddMenuOpen : bool;
  isRemoveMenuOpen : bool
}.

(** The arguments of the ten [useState] calls. *)
Definition initialState : AppState := {|
  originalImage := None;
  generatedImage := None;
  isLoading := false;
  error := None;
  activeProcess := None;
  sunlightIntensity := Intensity2;
  sunlightDirection := SunlightDirection.top;
  lastAppliedConfig := None;
  isAddMenuOpen := false;
  isRemoveMenuOpen := false
|}.

Inductive Setter :=
| setOriginalImage (v : option ImageFile)
| setGeneratedImage (v : option string)
| setIsLoading (v : bool)
| setError (v : option string)
| setActiveProcess (v : ActiveProcess)
| setSunlightIntensity (v : SunlightIntensity)
| setSunlightDirection (v : SunlightDirection.t)
| setLastAppliedConfig (v : option EffectConfig)
| setIsAddMenuOpen (v : bool)
| setIsRemoveMenuOpen (v : bool).

Definition write (u : Setter) (s : AppState) : AppState :=
  match u with
  | setOriginalImage v =>
      {| originalImage := v; generatedImage := generatedImage s;
         isLoading := isLoading s; error := error s;
         activeProcess := activeProcess s;
         sunlightIntensity := sunlightIntensity s;
         sunlightDirection := sunlightDirection s;
         lastAppliedConfig := lastAppliedConfig s;
         isAddMenuOpen := isAddMenuOpen s;
         isRemoveMenuOpen := isRemoveMenuOpen s |}
  | setGeneratedImage v =>
      {| originalImage := originalImage s; generatedImage := v;
         isLoading := isLoading s; error := error s;
         activeProcess := activeProcess s;
         sunlightIntensity := sunlightIntensity s;
         sunlightDirection := sunlightDirection s;
         lastAppliedConfig := lastAppliedConfig s;
         isAddMenuOpen := isAddMenuOpen s;
         isRemoveMenuOpen := isRemoveMenuOpen s |}
  | setIsLoading v =>
      {| originalImage := originalImage s;
         generatedImage := generatedImage s;
         isLoading := v; error := error s;
         activeProcess := activeProcess s;
         sunlightIntensity := sunlightIntensity s;
         sunlightDirection := sunlightDirection s;
         lastAppliedConfig := lastAppliedConfig s;
         isAddMenuOpen := isAddMenuOpen s;
         isRemoveMenuOpen := isRemoveMenuOpen s |}
  | setError v =>
      {| originalImage := originalImage s;
         generatedImage := generatedImage s;
         isLoading := isLoading s; error := v;
         activeProcess := activeProcess s;
         sunlightIntensity := sunlightIntensity s;
         sunlightDirection := sunlightDirection s;
         lastAppliedConfig := lastAppliedConfig s;
         isAddMenuOpen := isAddMenuOpen s;
         isRemoveMenuOpen := isRemoveMenuOpen s |}
  | setActiveProcess v =>
      {| originalImage := originalImage s;
         generatedImage := generatedImage s;
         isLoading := isLoading s; error := error s;
         activeProcess := v;
         sunlightIntensity := sunlightIntensity s;
         sunlightDirection := sunlightDirection s;
         lastAppliedConfig := lastAppliedConfig s;
         isAddMenuOpen := isAddMenuOpen s;
         isRemoveMenuOpen := isRemoveMenuOpen s |}
  | setSunlightIntensity v =>
      {| originalImage := originalImage s;
         generatedImage := generatedImage s;
         isLoading := isLoading s; error := error s;
         activeProcess := activeProcess s;
         sunlightIntensity := v;
         sunlightDirection := sunlightDirection s;
         lastAppliedConfig := lastAppliedConfig s;
         isAddMenuOpen := isAddMenuOpen s;
         isRemoveMenuOpen := isRemoveMenuOpen s |}
  | setSunlightDirection v =>
      {| originalImage := originalImage s;
         generatedImage := generatedImage s;
         isLoading := isLoading s; error := error s;
         activeProcess := activeProcess s;
         sunlightIntensity := sunlightIntensity s;
         sunlightDirection := v;
         lastAppliedConfig := lastAppliedConfig s;
         isAddMenuOpen := isAddMenuOpen s;
         isRemoveMenuOpen := isRemoveMenuOpen s |}
  | setLastAppliedConfig v =>
      {| originalImage := originalImage s;
         generatedImage := generatedImage s;
         isLoading := isLoading s; error := error s;
         activeProcess := activeProcess s;
         sunlightIntensity := sunlightIntensity s;
         sunlightDirection := sunlightDirection s;
         lastAppliedConfig := v;
         isAddMenuOpen := isAddMenuOpen s;
         isRemoveMenuOpen := isRemoveMenuOpen s |}
  | setIsAddMenuOpen v =>
      {| originalImage := originalImage s;
         generatedImage := generatedImage s;
         isLoading := isLoading s; error := error s;
         activeProcess := activeProcess s;
         sunlightIntensity := sunlightIntensity s;
         sunlightDirection := sunlightDirection s;
         lastAppliedConfig := lastAppliedConfig s;
         isAddMenuOpen := v;
         isRemoveMenuOpen := isRemoveMenuOpen s |}
  | setIsRemoveMenuOpen v =>
      {| originalImage := originalImage s;
         generatedImage := generatedImage s;
         isLoading := isLoading s; error := error s;
         activeProcess := activeProcess s;
         sunlightIntensity := sunlightIntensity s;
         sunlightDirection := sunlightDirection s;
         lastAppliedConfig := lastAppliedConfig s;
         isAddMenuOpen := isAddMenuOpen s;
         isRemoveMenuOpen := v |}
  end.

(** ** What a handler talks to *)

(** The [File] picked in the input: the two properties the handler reads. *)
Module File.
Record t := { type : string; name : string }.
End File.

(** What a rejected promise carries: an error whose [message] may be
    missing ([None]) or empty. *)
Record JsError := { message : option string }.

Inductive Settled (A : Type) :=
| Fulfilled (a : A)
| Rejected (err : JsError).
Arguments Fulfilled {A} a.
Arguments Rejected {A} err.

(** The file reader fires [onload] with the data URL, or [onerror]. *)
Inductive ReaderEvent :=
| onload (result : string)
| onerror.

(** The two requests that leave the component, indexed by what comes
    back.  [applyLightingEffect] is the import from the service module,
    an opaque remote call. *)
Inductive Request : Type -> Type :=
| applyLightingEffect (img : ImageFile) (e : LightingEffect)
    (i : SunlightIntensity) (d : SunlightDirection.t) : Request (Settled string)
| readAsDataURL (f : File.t) : Request ReaderEvent.

(** The anchor that [handleDownload] builds, appends, clicks and removes. *)
Record Anchor := { href : string; download : string }.

(** ** Handlers as tasks *)

Inductive Task (A : Type) : Type :=
| Ret (a : A)
| Update (u : Setter) (k : Task A)
| Click (a : Anchor) (k : Task A)
| Await {R : Type} (r : Request R) (k : R -> Task A).
Arguments Ret {A} a.
Arguments Update {A} u k.
Arguments Click {A} a k.
Arguments Await {A R} r k.

Fixpoint bind {A B : Type} (t : Task A) (f : A -> Task B) : Task B :=
  match t with
  | Ret a => f a
  | Update u k => Update u (bind k f)
  | Click a k => Click a (bind k f)
  | Await r k => Await r (fun x => bind (k x) f)
  end.

Definition set (u : Setter) : Task unit := Update u (Ret tt).

Definition click (a : Anchor) : Task unit := Click a (Ret tt).

Definition await {R : Type} (r : Request R) : Task R := Await r Ret.

Definition skip : Task unit := Ret tt.

#[global] Instance Task_ret : MRet Task := @Ret.

#[global] Instance Task_bind : MBind Task := fun A B f t => bind t f.

(** ** The JavaScript string operations the handlers use *)

(** [s.startsWith(p)]. *)
Definition startsWith (s p : string) : bool := String.prefix p s.

(** [s.split(c)] for a separator of one character: never empty, and a
    separator at either end gives an empty piece there. *)
Fixpoint split (c : ascii) (s : string) : list string :=
  match s with
  | EmptyString => [ "" ]
  | String a s' =>
      if Ascii.eqb a c then "" :: split c s'
      else match split c s' with
           | piece :: rest => String a piece :: rest
           | [] => [ String a "" ]
           end
  end.

(** [a.slice(0, -1)]: all but the last element. *)
Definition slice_0_neg1 {A : Type} (a : list A) : list A := removelast a.

(** [a.join(sep)]. *)
Definition join (sep : string) (a : list string) : string := String.concat sep a.

(** [a[1]]: [None] is [undefined]. *)
Definition index1 {A : Type} (a : list A) : option A := a !! 1%nat.

(** [x || d] on a string that may be missing: the empty string is falsy. *)
Definition or_else (x : option string) (d : string) : string :=
  match x with
  | Some (String a s) => String a s
  | Some EmptyString | None => d
  end.

(** [!x] on a string that may be [null]. *)
Definition falsy (x : option string) : bool :=
  match x with
  | Some (String _ _) => false
  | Some EmptyString | None => true
  end.

(** ** The handlers of [App]

    Each takes the state [s] of the render that created it: the values
    the closure reads.  What it writes goes through setters. *)

Definition handleImageUpload (event : option File.t) : Task unit :=
  match event with
  | Some file =>
      if negb (startsWith (File.type file) "image/") then
        set (setError (Some "Please upload a valid image file (e.g., JPEG, PNG, WEBP)."))
      else
        e ← await (readAsDataURL file);
        match e with
        | onload result =>
            let base64String := index1 (split ","%char result) in
            set (setOriginalImage (Some {| base64 := base64String;
                                           mimeType := File.type file;
                                           name := File.name file |}));;
            set (setGeneratedImage None);;
            set (setLastAppliedConfig None);;
            set (setError None)
        | onerror => set (setError (Some "Failed to read the selected file."))
        end
  | None => skip
  end.

Definition handleDownload (s : AppState) : Task unit :=
  match generatedImage s, originalImage s with
  | Some generated, Some original =>
      if falsy (Some generated) then skip
      else
        let name := or_else (Some (join "." (slice_0_neg1 (split "."%char (name original))))) "image" in
        let effectName := or_else (effect_text ∘ effect <$> lastAppliedConfig s) "enhanced" in
        click {| href := generated;
                 download := name +:+ "-" +:+ effectName +:+ ".png" |}
  | _, _ => skip
  end.

Definition runEffect (s : AppState) (effect : LightingEffect)
    (intensity : SunlightIntensity) (direction : SunlightDirection.t)
    (processType : ActiveProcess) : Task unit :=
  match originalImage s with
  | None => set (setError (Some "Please upload an image first."))
  | Some original =>
      set (setIsLoading true);;
      set (setActiveProcess processType);;
      set (setError None);;
      set (setGeneratedImage None);;
      settled ← await (applyLightingEffect original effect intensity direction);
      match settled with
      | Fulfilled result =>
          set (setGeneratedImage (Some result));;
          match processType with
          | Some variation => skip
          | _ => set (setLastAppliedConfig
                        (Some {| effect := effect; intensity := intensity;
                                 direction := direction |}))
          end
      | Rejected err =>
          set (setError (Some (or_else (message err) "An unexpected error occurred.")))
      end;;
      set (setIsLoading false);;
      set (setActiveProcess None)
  end.

Definition handleEffectClick (s : AppState) (effect : LightingEffect) : Task unit :=
  set (setIsAddMenuOpen false);;
  set (setIsRemoveMenuOpen false);;
  runEffect s effect (sunlightIntensity s) (sunlightDirection s)
    (Some (effectTag effect)).

Definition handleVariationClick (s : AppState) : Task unit :=
  match lastAppliedConfig s with
  | Some c => runEffect s (effect c) (intensity c) (direction c) (Some variation)
  | None => skip
  end.

(** The [useEffect] listener.  [outsideAdd] stands for
    [addMenuRef.current && !addMenuRef.current.contains(event.target)],
    and [outsideRemove] for the same on the other menu. *)
Definition handleClickOutside (outsideAdd outsideRemove : bool) : Task unit :=
  (if outsideAdd then set (setIsAddMenuOpen false) else skip);;
  (if outsideRemove then set (setIsRemoveMenuOpen false) else skip).

(** ** Running a task up to its next request *)

Inductive Status (A : Type) : Type :=
| Finished (a : A)
| Suspended {R : Type} (r : Request R) (k : R -> Task A).
Arguments Finished {A} a.
Arguments Suspended {A R} r k.

Record Run (A : Type) := {
  state : AppState;
  clicked : list Anchor;
  status : Status A
}.
Arguments state {A} _.
Arguments clicked {A} _.
Arguments status {A} _.

Fixpoint run_from {A : Type} (t : Task A) (st : AppState) (out : list Anchor) : Run A :=
  match t with
  | Ret a => {| state := st; clicked := out; status := Finished a |}
  | Update u k => run_from k (write u st) out
  | Click a k => run_from k st (out ++ [a])
  | Await r k => {| state := st; clicked := out; status := Suspended r k |}
  end.

Definition run {A : Type} (t : Task A) (st : AppState) : Run A := run_from t st [].

(** The remote calls a run has issued: at most the one it is suspended on. *)
Definition remoteCalls {A : Type} (r : Run A)
  : list (ImageFile * LightingEffect * SunlightIntensity * SunlightDirection.t) :=
  match status r with
  | Suspended (applyLightingEffect img e i d) _ => [ (img, e, i, d) ]
  | _ => []
  end.

(** ** The page as a transition system

    Between two events React renders again, so a handler always closes
    over the current state.  A suspended handler waits in [pending] until
    its request is answered; nothing orders the answers, and nothing stops
    a new handler from starting meanwhile.  Events are accepted in any
    state, also where the rendered page would have disabled the control
    that fires them. *)

Inductive Pending :=
| Waiting {R : Type} (r : Request R) (k : R -> Task unit).

Record Page := {
  ui : AppState;
  pending : list Pending;
  saved : list Anchor
}.

Definition initialPage : Page :=
  {| ui := initialState; pending := []; saved := [] |}.

Inductive Answer :=
| effectSettled (x : Settled string)
| readerFired (x : ReaderEvent).

Inductive Event :=
| fileChanged (event : option File.t)
| effectClicked (e : LightingEffect)
| variationClicked
| downloadClicked
| addMenuToggled
| removeMenuToggled
| intensityChanged (v : SunlightIntensity)
| directionClicked (d : SunlightDirection.t)
| mouseDown (outsideAdd outsideRemove : bool)
| answered (n : nat) (a : Answer).

(** Run a task on the page and queue it if it suspends. *)
Definition dispatch (t : Task unit) (p : Page) (waiting : list Pending) : Page :=
  let r := run t (ui p) in
  {| ui := state r;
     pending := match status r with
                | Finished _ => waiting
                | Suspended q k => waiting ++ [ Waiting q k ]
                end;
     saved := saved p ++ clicked r |}.

(** The continuation of a pending request on an answer of its kind. *)
Definition resume (w : Pending) (a : Answer) : option (Task unit) :=
  match w with
  | Waiting q k =>
      match q in Request R return (R -> Task unit) -> option (Task unit) with
      | applyLightingEffect _ _ _ _ => fun k =>
          match a with effectSettled x => Some (k x) | readerFired _ => None end
      | readAsDataURL _ => fun k =>
          match a with readerFired x => Some (k x) | effectSettled _ => None end
      end k
  end.

Definition step (p : Page) (ev : Event) : Page :=
  match ev with
  | fileChanged event => dispatch (handleImageUpload event) p (pending p)
  | effectClicked e => dispatch (handleEffectClick (ui p) e) p (pending p)
  | variationClicked => dispatch (handleVariationClick (ui p)) p (pending p)
  | downloadClicked => dispatch (handleDownload (ui p)) p (pending p)
  | addMenuToggled =>
      dispatch (set (setIsAddMenuOpen (negb (isAddMenuOpen (ui p))))) p (pending p)
  | removeMenuToggled =>
      dispatch (set (setIsRemoveMenuOpen (negb (isRemoveMenuOpen (ui p))))) p (pending p)
  | intensityChanged v => dispatch (set (setSunlightIntensity v)) p (pending p)
  | directionClicked d => dispatch (set (setSunlightDirection d)) p (pending p)
  | mouseDown outsideAdd outsideRemove =>
      dispatch (handleClickOutside outsideAdd outsideRemove) p (pending p)
  | answered n a =>
      match pending p !! n with
      | Some w =>
          match resume w a with
          | Some t => dispatch t p (delete n (pending p))
          | None => p
          end
      | None => p
      end
  end.

Definition replay (evs : list Event) (p : Page) : Page := foldl step p evs.

(** ** What a suspended handler does when it is resumed *)

(** The rest of [runEffect] after the [await]: the [try] body or the
    [catch] clause, then the [finally] block. *)
Definition afterEffect (effect : LightingEffect) (intensity : SunlightIntensity)
    (direction : SunlightDirection.t) (processType : ActiveProcess)
    (settled : Settled string) : Task unit :=
  match settled with
  | Fulfilled result =>
      set (setGeneratedImage (Some result));;
      match processType with
      | Some variation => skip
      | _ => set (setLastAppliedConfig
                    (Some {| effect := effect; intensity := intensity;
                             direction := direction |}))
      end
  | Rejected err =>
      set (setError (Some (or_else (message err) "An unexpected error occurred.")))
  end;;
  set (setIsLoading false);;
  set (setActiveProcess None).

(** The two callbacks [handleImageUpload] installs on the reader. *)
Definition afterRead (file : File.t) (e : ReaderEvent) : Task unit :=
  match e with
  | onload result =>
      set (setOriginalImage (Some {| base64 := index1 (split ","%char result);
                                     mimeType := File.type file;
                                     name := File.name file |}));;
      set (setGeneratedImage None);;
      set (setLastAppliedConfig None);;
      set (setError None)
  | onerror => set (setError (Some "Failed to read the selected file."))
  end.

(** The state [runEffect] leaves behind when it reaches its [await]. *)
Definition loadingState (processType : ActiveProcess) (s : AppState) : AppState :=
  write (setGeneratedImage None)
    (write (setError None)
       (write (setActiveProcess processType)
          (write (setIsLoading true) s))).

(** ** File names *)

(** Whether [c] occurs in [s]. *)
Fixpoint has_char (c : ascii) (s : string) : bool :=
  match s with
  | EmptyString => false
  | String a s' => Ascii.eqb a c || has_char c s'
  end.

(** The stem the download name is built on: [name.split('.').slice(0, -1).join('.')]. *)
Definition splitStem (name : string) : string :=
  join "." (slice_0_neg1 (split "."%char name)).

(** Following the spec's words, "the name without its final extension":
    what stands before the last dot, and the whole name when it has no
    dot. *)
Fixpoint nameStem (name : string) : string :=
  match name with
  | EmptyString => EmptyString
  | String a rest =>
      if has_char "."%char rest then String a (nameStem rest)
      else if Ascii.eqb a "."%char then EmptyString
      else String a rest
  end.

(** Following the spec's words: [<original-stem>-<effect-or-"enhanced">.png]. *)
Definition specDownloadName (original : ImageFile) (config : option EffectConfig) : string :=
  nameStem (name original) +:+ "-" +:+
  match config with
  | Some c => effect_text (effect c)
  | None => "enhanced"
  end +:+ ".png".

(** The effect part of the download name. *)
Definition effectOrEnhanced (config : option EffectConfig) : string :=
  match config with
  | Some c => effect_text (effect c)
  | None => "enhanced"
  end.

(** ** What holds in every state the page can reach *)

(** A waiting request is one of the two the handlers issue, with the
    continuation that handler left; an effect call is only ever issued
    for an uploaded image. *)
Definition issued (s : AppState) (w : Pending) : Prop :=
  match w with
  | Waiting q k =>
      match q in Request R return (R -> Task unit) -> Prop with
      | applyLightingEffect _ e i d => fun k =>
          is_Some (originalImage s) /\ exists processType, k = afterEffect e i d processType
      | readAsDataURL file => fun k => k = afterRead file
      end k
  end.

Record consistent (p : Page) : Prop := {
  config_has_image :
    is_Some (lastAppliedConfig (ui p)) -> is_Some (originalImage (ui p));
  pending_issued : Forall (issued (ui p)) (pending p)
}.

(** ** Sessions and states the statements are tried on *)

Definition photo : File.t := {| File.type := "image/png"; File.name := "beach.day.png" |}.

(** The spec's scenario, up to the variation: an upload, then "sunlight"
    at the default intensity 2 from the top, and its result. *)
Definition scenario : list Event :=
  [ fileChanged (Some photo);
    answered 0 (readerFired (onload "data:image/png;base64,AAAA"));
    effectClicked sunlight;
    answered 0 (effectSettled (Fulfilled "data:image/png;base64,BBBB")) ].

(** A file whose name has no extension. *)
Definition plain : File.t := {| File.type := "image/jpeg"; File.name := "photo" |}.

(** The same session on [plain], with shadows for the effect. *)
Definition plainSession : list Event :=
  [ fileChanged (Some plain);
    answered 0 (readerFired (onload "data:image/jpeg;base64,CCCC"));
    effectClicked shadows;
    answered 0 (effectSettled (Fulfilled "data:image/png;base64,DDDD")) ].

Definition beach : ImageFile :=
  {| base64 := Some "AAAA"; mimeType := "image/png"; name := "beach.day.png" |}.

(** A state with an image, an older result and an older error still
    shown, and the add menu open. *)
Definition withImage : AppState :=
  {| originalImage := Some beach;
     generatedImage := Some "data:image/png;base64,OLD";
     isLoading := false;
     error := Some "An unexpected error occurred.";
     activeProcess := None;
     sunlightIntensity := Intensity3;
     sunlightDirection := SunlightDirection.right;
     lastAppliedConfig := None;
     isAddMenuOpen := true;
     isRemoveMenuOpen := false |}.

(** A state no run of the page shows, for the handlers' own guards: no
    image, yet a result, a stored configuration and a request in flight. *)
Definition withoutImage : AppState :=
  {| originalImage := None;
     generatedImage := Some "data:image/png;base64,OLD";
     isLoading := true;
     error := None;
     activeProcess := Some variation;
     sunlightIntensity := Intensity1;
     sunlightDirection := SunlightDirection.bottom;
     lastAppliedConfig := Some {| effect := shadows; intensity := Intensity1;
                                  direction := SunlightDirection.center |};
     isAddMenuOpen := true;
     isRemoveMenuOpen := true |}.

Definition textFile : File.t := {| File.type := "text/plain"; File.name := "notes.txt" |}.

(** ** What [App] renders *)

(** [ImageDisplay.tsx]: the props, and what the component shows for them.
    The download button is there when
    [imageSrc && !isLoading && onDownload]. *)
Module ImageDisplay.
Record Props := {
  title : string;
  imageSrc : option string;
  isLoading : bool;
  placeholderText : string;
  loadingText : string;
  onDownload : option (Task unit)
}.

Inductive Body :=
| spinner (text : string)
| img (src alt : string)
| placeholder (text : string).

Record Rendered := {
  heading : string;
  downloadButton : option (Task unit);
  body : Body
}.

Definition render (props : Props) : Rendered :=
  {| heading := title props;
     downloadButton :=
       if negb (falsy (imageSrc props)) && negb (isLoading props)
       then onDownload props else None;
     body :=
       if isLoading props then spinner (loadingText props)
       else match imageSrc props with
            | Some src => if falsy (Some src) then placeholder (placeholderText props)
                          else img src (title props)
            | None => placeholder (placeholderText props)
            end |}.
End ImageDisplay.

Definition intensityLabels (i : SunlightIntensity) : string :=
  match i with
  | Intensity1 => "Normal"
  | Intensity2 => "More"
  | Intensity3 => "Intense"
  end.

Definition directionLabels (d : SunlightDirection.t) : string :=
  match d with
  | SunlightDirection.top => "Top"
  | SunlightDirection.left => "Left"
  | SunlightDirection.center => "Center"
  | SunlightDirection.right => "Right"
  | SunlightDirection.bottom => "Bottom"
  end.

(** The directions are string literals at run time; this is their text. *)
Definition direction_text (d : SunlightDirection.t) : string :=
  match d with
  | SunlightDirection.top => "top"
  | SunlightDirection.left => "left"
  | SunlightDirection.center => "center"
  | SunlightDirection.right => "right"
  | SunlightDirection.bottom => "bottom"
  end.

(** The text of a process tag: the effect's, or 'variation'. *)
Definition process_text (t : ProcessTag) : string :=
  match t with
  | effectTag e => effect_text e
  | variation => "variation"
  end.

(** [s.toLowerCase()] on ASCII text, which the labels are. *)
Definition lowerChar (a : ascii) : ascii :=
  let n := nat_of_ascii a in
  if (65 <=? n)%nat && (n <=? 90)%nat then ascii_of_nat (n + 32) else a.

Fixpoint toLowerCase (s : string) : string :=
  match s with
  | EmptyString => EmptyString
  | String a s' => String (lowerChar a) (toLowerCase s')
  end.

(** [a.includes(x)] on strings. *)
Definition includes (a : list string) (x : string) : bool := existsb (String.eqb x) a.

Definition isAdding (s : AppState) : bool :=
  includes [ "sunlight"; "shadows"; "sunlight-and-shadows" ]
    (or_else (process_text <$> activeProcess s) "").

Definition isRemoving (s : AppState) : bool :=
  includes [ "remove-sunlight"; "remove-shadows"; "remove-sunlight-and-shadows" ]
    (or_else (process_text <$> activeProcess s) "").

Definition loadingText (s : AppState) : string :=
  match activeProcess s with
  | Some (effectTag sunlight) =>
      "Adding " +:+ toLowerCase (intensityLabels (sunlightIntensity s)) +:+
      " sunlight from the " +:+ direction_text (sunlightDirection s) +:+ "..."
  | Some (effectTag shadows) => "Casting realistic shadows..."
  | Some (effectTag sunlight_and_shadows) =>
      "Adding " +:+ toLowerCase (intensityLabels (sunlightIntensity s)) +:+
      " sunlight from the " +:+ direction_text (sunlightDirection s) +:+ " and shadows..."
  | Some (effectTag remove_sunlight) => "Removing sunlight for neutral lighting..."
  | Some (effectTag remove_shadows) => "Softening shadows for balanced lighting..."
  | Some (effectTag remove_sunlight_and_shadows) => "Neutralizing all lighting..."
  | Some variation => "Generating a new variation..."
  | None => "AI is working its magic..."
  end.

(** A footer button: whether it is disabled, and whether its label is
    [loadingSpinner] rather than its text. *)
Record Button := { disabled : bool; spinning : bool }.

(** [!x] on an object that may be [null]. *)
Definition isNull {A : Type} (x : option A) : bool :=
  match x with
  | Some _ => false
  | None => true
  end.

(** The template literal on a value that may be [undefined]. *)
Definition interpolate (x : option string) : string :=
  match x with
  | Some s => s
  | None => "undefined"
  end.

(** What the returned JSX depends on the state for. *)
Record View := {
  originalPane : ImageDisplay.Rendered;
  enhancedPane : ImageDisplay.Rendered;
  errorBanner : option string;
  uploadLabel : string;
  addButton : Button;
  addMenuShown : bool;
  intensityLabel : string;
  controlsDisabled : bool;
  selectedDirection : SunlightDirection.t;
  removeButton : Button;
  removeMenuShown : bool;
  variationButton : Button
}.

Definition render (s : AppState) : View :=
  {| originalPane :=
       ImageDisplay.render
         {| ImageDisplay.title := "Original Image";
            ImageDisplay.imageSrc :=
              (fun original => "data:" +:+ mimeType original +:+ ";base64," +:+
                               interpolate (base64 original)) <$> originalImage s;
            ImageDisplay.isLoading := false;
            ImageDisplay.placeholderText := "Upload an image to begin";
            ImageDisplay.loadingText := "";
            ImageDisplay.onDownload := None |};
     enhancedPane :=
       ImageDisplay.render
         {| ImageDisplay.title := "AI Enhanced Image";
            ImageDisplay.imageSrc := generatedImage s;
            ImageDisplay.isLoading := isLoading s;
            ImageDisplay.placeholderText := "Your enhanced image will appear here";
            ImageDisplay.loadingText := loadingText s;
            ImageDisplay.onDownload := Some (handleDownload s) |};
     errorBanner := if falsy (error s) then None else error s;
     uploadLabel := match originalImage s with
                    | Some _ => "Change Image"
                    | None => "Upload Image"
                    end;
     addButton :=
       {| disabled := isNull (originalImage s) || isLoading s;
          spinning := isLoading s && isAdding s |};
     addMenuShown := isAddMenuOpen s;
     intensityLabel := "Intensity: " +:+ intensityLabels (sunlightIntensity s);
     controlsDisabled := isNull (originalImage s) || isLoading s;
     selectedDirection := sunlightDirection s;
     removeButton :=
       {| disabled := isNull (originalImage s) || isLoading s;
          spinning := isLoading s && isRemoving s |};
     removeMenuShown := isRemoveMenuOpen s;
     variationButton :=
       {| disabled := isNull (lastAppliedConfig s) || isLoading s;
          spinning := isLoading s &&
                      match activeProcess s with
                      | Some variation => true
                      | _ => false
                      end |} |}.

(** ** How one event moves the page *)

(** Whether a waiting request is an effect call. *)
Definition isEffectCall (w : Pending) : bool :=
  match w with
  | Waiting (applyLightingEffect _ _ _ _) _ => true
  | Waiting (readAsDataURL _) _ => false
  end.

(** The five shapes a step takes: it leaves the image, the result, the
    loading flag, the tag, the stored configuration and the queue alone;
    it starts the reader; it starts an effect call; an effect call comes
    back; the reader comes back. *)
Inductive moves (p p' : Page) : Prop :=
| moves_frame :
    pending p' = pending p ->
    originalImage (ui p') = originalImage (ui p) ->
    generatedImage (ui p') = generatedImage (ui p) ->
    isLoading (ui p') = isLoading (ui p) ->
    activeProcess (ui p') = activeProcess (ui p) ->
    lastAppliedConfig (ui p') = lastAppliedConfig (ui p) ->
    moves p p'
| moves_reading (file : File.t) :
    pending p' = pending p ++ [ Waiting (readAsDataURL file) (afterRead file) ] ->
    ui p' = ui p ->
    moves p p'
| moves_calling (original : ImageFile) (e : LightingEffect) (i : SunlightIntensity)
    (d : SunlightDirection.t) (tag : ProcessTag) (s0 : AppState) :
    originalImage (ui p) = Some original ->
    originalImage s0 = originalImage (ui p) ->
    lastAppliedConfig s0 = lastAppliedConfig (ui p) ->
    ui p' = loadingState (Some tag) s0 ->
    pending p' = pending p ++ [ Waiting (applyLightingEffect original e i d)
                                  (afterEffect e i d (Some tag)) ] ->
    moves p p'
| moves_settled (n : nat) (original : ImageFile) (e : LightingEffect)
    (i : SunlightIntensity) (d : SunlightDirection.t) (processType : ActiveProcess)
    (x : Settled string) :
    pending p !! n = Some (Waiting (applyLightingEffect original e i d)
                             (afterEffect e i d processType)) ->
    is_Some (originalImage (ui p)) ->
    ui p' = state (run (afterEffect e i d processType x) (ui p)) ->
    pending p' = delete n (pending p) ->
    moves p p'
| moves_read (n : nat) (file : File.t) (x : ReaderEvent) :
    pending p !! n = Some (Waiting (readAsDataURL file) (afterRead file)) ->
    ui p' = state (run (afterRead file x) (ui p)) ->
    pending p' = delete n (pending p) ->
    moves p p'.

(** What every reachable page satisfies besides [consistent]: the loading
    flag and the tag go together, a result belongs to an uploaded image,
    and while the page is loading an effect call is out and no result
    is held. *)
Record coherent (p : Page) : Prop := {
  coherent_consistent : consistent p;
  loading_tagged : isLoading (ui p) = true <-> is_Some (activeProcess (ui p));
  result_has_image : is_Some (generatedImage (ui p)) -> is_Some (originalImage (ui p));
  loading_waits :
    isLoading (ui p) = true -> Exists (fun w => isEffectCall w = true) (pending p);
  loading_blank : isLoading (ui p) = true -> generatedImage (ui p) = None
}.

(** Two effect calls out at once. *)
Definition overlapping : list Event :=
  [ fileChanged (Some photo);
    answered 0 (readerFired (onload "data:image/png;base64,AAAA"));
    effectClicked sunlight;
    effectClicked remove_shadows ].

(** ** The model at work *)

Example scenario_state :
  ui (replay scenario initialPage) =
  {| originalImage := Some {| base64 := Some "AAAA"; mimeType := "image/png";
                              name := "beach.day.png" |};
     generatedImage := Some "data:image/png;base64,BBBB";
     isLoading := false;
     error := None;
     activeProcess := None;
     sunlightIntensity := Intensity2;
     sunlightDirection := SunlightDirection.top;
     lastAppliedConfig := Some {| effect := sunlight; intensity := Intensity2;
                                  direction := SunlightDirection.top |};
     isAddMenuOpen := false;
     isRemoveMenuOpen := false |}.
Proof. reflexivity. Qed.

Example scenario_download :
  saved (replay (scenario ++ [ downloadClicked ]) initialPage) =
  [ {| href := "data:image/png;base64,BBBB"; download := "beach.day-sunlight.png" |} ].
Proof. reflexivity. Qed.

Example scenario_variation_in_flight :
  let p := replay (scenario ++ [ variationClicked ]) initialPage in
  isLoading (ui p) = true /\ activeProcess (ui p) = Some variation /\
  generatedImage (ui p) = None /\ length (pending p) = 1%nat.
Proof. repeat split. Qed.

Example scenario_variation_done :
  let p := replay (scenario ++ [ variationClicked;
                                 answered 0 (effectSettled (Fulfilled "data:image/png;base64,EEEE")) ])
             initialPage in
  generatedImage (ui p) = Some "data:image/png;base64,EEEE" /\
  lastAppliedConfig (ui p) = lastAppliedConfig (ui (replay scenario initialPage)) /\
  isLoading (ui p) = false /\ pending p = [].
Proof. repeat split. Qed.

(** ** Each handler, run to its first request *)

Section RunEffect.
Variables (e : LightingEffect) (i : SunlightIntensity)
          (d : SunlightDirection.t) (processType : ActiveProcess).

Lemma run_runEffect_no_image (s st : AppState) :
  originalImage s = None ->
  run (runEffect s e i d processType) st =
  {| state := write (setError (Some "Please upload an image first.")) st;
     clicked := [];
     status := Finished tt |}.
Proof. intros H. unfold runEffect. rewrite H. reflexivity. Qed.

Lemma run_runEffect_image (s st : AppState) (img : ImageFile) :
  originalImage s = Some img ->
  run (runEffect s e i d processType) st =
  {| state := loadingState processType st;
     clicked := [];
     status := Suspended (applyLightingEffect img e i d)
                 (afterEffect e i d processType) |}.
Proof. intros H. unfold runEffect. rewrite H. reflexivity. Qed.

Lemma run_afterEffect_fulfilled (st : AppState) (result : string) :
  run (afterEffect e i d processType (Fulfilled result)) st =
  {| state :=
       write (setActiveProcess None)
         (write (setIsLoading false)
            (match processType with
             | Some variation => write (setGeneratedImage (Some result)) st
             | _ => write (setLastAppliedConfig
                             (Some {| effect := e; intensity := i;
                                      direction := d |}))
                      (write (setGeneratedImage (Some result)) st)
             end));
     clicked := [];
     status := Finished tt |}.
Proof. destruct processType as [[|]|]; reflexivity. Qed.

Lemma run_afterEffect_rejected (st : AppState) (err : JsError) :
  run (afterEffect e i d processType (Rejected err)) st =
  {| state :=
       write (setActiveProcess None)
         (write (setIsLoading false)
            (write (setError (Some (or_else (message err)
                                      "An unexpected error occurred."))) st));
     clicked := [];
     status := Finished tt |}.
Proof. reflexivity. Qed.
End RunEffect.

Lemma run_handleEffectClick_image (s : AppState) (img : ImageFile) (e : LightingEffect) :
  originalImage s = Some img ->
  run (handleEffectClick s e) s =
  {| state := loadingState (Some (effectTag e))
                (write (setIsRemoveMenuOpen false) (write (setIsAddMenuOpen false) s));
     clicked := [];
     status := Suspended
                 (applyLightingEffect img e (sunlightIntensity s) (sunlightDirection s))
                 (afterEffect e (sunlightIntensity s) (sunlightDirection s)
                    (Some (effectTag e))) |}.
Proof.
  intros H. unfold handleEffectClick, runEffect. rewrite H. reflexivity.
Qed.

Lemma run_handleEffectClick_no_image (s : AppState) (e : LightingEffect) :
  originalImage s = None ->
  run (handleEffectClick s e) s =
  {| state := write (setError (Some "Please upload an image first."))
                (write (setIsRemoveMenuOpen false) (write (setIsAddMenuOpen false) s));
     clicked := [];
     status := Finished tt |}.
Proof.
  intros H. unfold handleEffectClick, runEffect. rewrite H. reflexivity.
Qed.

Lemma run_handleImageUpload_image (file : File.t) (st : AppState) :
  startsWith (File.type file) "image/" = true ->
  run (handleImageUpload (Some file)) st =
  {| state := st; clicked := [];
     status := Suspended (readAsDataURL file) (afterRead file) |}.
Proof. intros H. unfold handleImageUpload. rewrite H. reflexivity. Qed.

Lemma run_handleImageUpload_other (file : File.t) (st : AppState) :
  startsWith (File.type file) "image/" = false ->
  run (handleImageUpload (Some file)) st =
  {| state := write (setError
                       (Some "Please upload a valid image file (e.g., JPEG, PNG, WEBP).")) st;
     clicked := [];
     status := Finished tt |}.
Proof. intros H. unfold handleImageUpload. rewrite H. reflexivity. Qed.

(** [handleDownload] calls no setter and awaits nothing. *)
Lemma run_handleDownload_state (s st : AppState) :
  state (run (handleDownload s) st) = st /\
  status (run (handleDownload s) st) = Finished tt.
Proof.
  unfold handleDownload.
  destruct (generatedImage s) as [[|a g]|]; destruct (originalImage s);
    split; reflexivity.
Qed.

(** ** Splitting and joining *)

Lemma append_nil (t : string) : EmptyString +:+ t = t.
Proof. reflexivity. Qed.

Lemma append_cons (a : ascii) (s t : string) : String a s +:+ t = String a (s +:+ t).
Proof. reflexivity. Qed.

Section Split.
Variable c : ascii.

Lemma split_not_nil (s : string) : split c s <> [].
Proof.
  destruct s as [|a s]; cbn; [discriminate|].
  destruct (Ascii.eqb a c); [discriminate|].
  destruct (split c s); discriminate.
Qed.

Lemma has_char_app (s t : string) :
  has_char c (s +:+ t) = has_char c s || has_char c t.
Proof.
  induction s as [|a s IH]; [reflexivity|].
  rewrite append_cons. cbn. rewrite IH. apply orb_assoc.
Qed.

Lemma split_without (s : string) : has_char c s = false -> split c s = [ s ].
Proof.
  induction s as [|a s IH]; cbn; [reflexivity|].
  intros [Ha Hs]%orb_false_iff. rewrite Ha, (IH Hs). reflexivity.
Qed.

Lemma split_app (s t : string) :
  split c (s +:+ String c t) = split c s ++ split c t.
Proof.
  induction s as [|a s IH]; rewrite ?append_nil, ?append_cons; cbn.
  - rewrite Ascii.eqb_refl. reflexivity.
  - rewrite IH. destruct (Ascii.eqb a c); [reflexivity|].
    pose proof (split_not_nil s) as Hne.
    destruct (split c s) as [|piece rest]; [contradiction|reflexivity].
Qed.

Lemma concat_cons_char (a : ascii) (piece : string) (rest : list string) :
  String.concat (String c "") (String a piece :: rest) =
  String a (String.concat (String c "") (piece :: rest)).
Proof. destruct rest; reflexivity. Qed.

Lemma join_split (s : string) : join (String c "") (split c s) = s.
Proof.
  unfold join. induction s as [|a s IH]; cbn -[String.concat]; [reflexivity|].
  pose proof (split_not_nil s) as Hne.
  destruct (Ascii.eqb a c) eqn:Ha.
  - apply Ascii.eqb_eq in Ha as ->.
    destruct (split c s) as [|piece rest]; [contradiction|].
    cbn in *. rewrite IH. reflexivity.
  - destruct (split c s) as [|piece rest]; [contradiction|].
    rewrite concat_cons_char, IH. reflexivity.
Qed.

(** Every string with a [c] splits at its last [c]. *)
Lemma last_occurrence (s : string) :
  has_char c s = true ->
  exists before after, s = before +:+ String c after /\ has_char c after = false.
Proof.
  induction s as [|a s IH]; cbn; [discriminate|].
  destruct (has_char c s) eqn:Hs.
  - intros _. destruct (IH eq_refl) as (before & after & -> & Hafter).
    exists (String a before), after. split; [reflexivity|assumption].
  - rewrite orb_false_r. intros ->%Ascii.eqb_eq.
    exists EmptyString, s. split; [reflexivity|assumption].
Qed.
End Split.

Lemma splitStem_app (before after : string) :
  has_char "."%char after = false ->
  splitStem (before +:+ String "."%char after) = before.
Proof.
  intros Hafter. unfold splitStem, slice_0_neg1.
  rewrite split_app, (split_without _ _ Hafter), removelast_last.
  apply join_split.
Qed.

Lemma splitStem_without (name : string) :
  has_char "."%char name = false -> splitStem name = EmptyString.
Proof.
  intros H. unfold splitStem, slice_0_neg1. rewrite (split_without _ _ H). reflexivity.
Qed.

Lemma nameStem_app (before after : string) :
  has_char "."%char after = false ->
  nameStem (before +:+ String "."%char after) = before.
Proof.
  intros Hafter.
  induction before as [|a before IH]; rewrite ?append_nil, ?append_cons; cbn.
  - rewrite Hafter. reflexivity.
  - rewrite has_char_app. cbn. rewrite orb_true_r, IH. reflexivity.
Qed.

Lemma nameStem_without (name : string) :
  has_char "."%char name = false -> nameStem name = name.
Proof.
  destruct name as [|a rest]; cbn; [reflexivity|].
  intros [Ha Hrest]%orb_false_iff. rewrite Hrest, Ha. reflexivity.
Qed.

(** The code's stem is the spec's exactly on the names that hold a dot. *)
Lemma splitStem_nameStem (name : string) :
  splitStem name = if has_char "."%char name then nameStem name else EmptyString.
Proof.
  destruct (has_char "."%char name) eqn:H.
  - destruct (last_occurrence _ _ H) as (before & after & -> & Hafter).
    rewrite splitStem_app, nameStem_app by assumption. reflexivity.
  - apply splitStem_without, H.
Qed.

Lemma or_else_effect_text (e : LightingEffect) (d : string) :
  or_else (Some (effect_text e)) d = effect_text e.
Proof. destruct e; reflexivity. Qed.

Lemma falsy_false (g : string) : g <> EmptyString -> falsy (Some g) = false.
Proof. destruct g; [contradiction|reflexivity]. Qed.

(** What [split(',')[1]] finds in a data URL [header,payload]. *)
Lemma dataURL_payload (header payload : string) :
  has_char ","%char header = false ->
  has_char ","%char payload = false ->
  index1 (split ","%char (header +:+ String ","%char payload)) = Some payload.
Proof.
  intros Hh Hp. rewrite split_app, (split_without _ _ Hh), (split_without _ _ Hp).
  reflexivity.
Qed.

(** ** Every reachable page is consistent *)

Lemma issued_mono (s s' : AppState) (w : Pending) :
  (is_Some (originalImage s) -> is_Some (originalImage s')) ->
  issued s w -> issued s' w.
Proof.
  intros Hmono. destruct w as [R q k]. destruct q; cbn; [|trivial].
  intros [Himg Hk]. split; auto.
Qed.

Lemma dispatch_consistent (t : Task unit) (p : Page) (waiting : list Pending) :
  (is_Some (lastAppliedConfig (state (run t (ui p)))) ->
   is_Some (originalImage (state (run t (ui p))))) ->
  (is_Some (originalImage (ui p)) -> is_Some (originalImage (state (run t (ui p))))) ->
  Forall (issued (ui p)) waiting ->
  match status (run t (ui p)) with
  | Finished _ => True
  | Suspended q k => issued (state (run t (ui p))) (Waiting q k)
  end ->
  consistent (dispatch t p waiting).
Proof.
  intros Hconfig Hmono Hwaiting Hnew. unfold dispatch. split; cbn; [assumption|].
  assert (Forall (issued (state (run t (ui p)))) waiting) as Hold.
  { eapply Forall_impl; [exact Hwaiting|]. intros w. apply issued_mono, Hmono. }
  destruct (status (run t (ui p))); [assumption|].
  apply Forall_app. split; [assumption|]. constructor; [assumption|constructor].
Qed.

(** A task that only writes fields other than the image and the stored
    configuration keeps the page consistent. *)
Lemma dispatch_frame (t : Task unit) (p : Page) :
  consistent p ->
  originalImage (state (run t (ui p))) = originalImage (ui p) ->
  lastAppliedConfig (state (run t (ui p))) = lastAppliedConfig (ui p) ->
  status (run t (ui p)) = Finished tt ->
  consistent (dispatch t p (pending p)).
Proof.
  intros [Hconfig Hpending] Himg Hcfg Hstatus.
  apply dispatch_consistent; rewrite ?Himg, ?Hcfg, ?Hstatus; auto.
Qed.

Lemma resume_consistent (p : Page) (n : nat) (w : Pending) (a : Answer) (t : Task unit) :
  consistent p ->
  pending p !! n = Some w ->
  resume w a = Some t ->
  consistent (dispatch t p (delete n (pending p))).
Proof.
  intros [Hconfig Hpending] Hw Ht.
  pose proof (Forall_lookup_1 _ _ _ _ Hpending Hw) as Hissued.
  pose proof (Forall_delete _ _ n Hpending) as Hrest.
  destruct w as [R q k]. destruct q as [img e i d|file]; cbn in Ht, Hissued.
  - destruct a as [x|x]; [|discriminate]. injection Ht as <-.
    destruct Hissued as [Himg [processType ->]].
    apply dispatch_consistent; [| |assumption|].
    + destruct x as [result|err].
      * rewrite run_afterEffect_fulfilled. intros _.
        destruct processType as [[|]|]; exact Himg.
      * rewrite run_afterEffect_rejected. exact Hconfig.
    + destruct x as [result|err].
      * rewrite run_afterEffect_fulfilled. destruct processType as [[|]|]; trivial.
      * rewrite run_afterEffect_rejected. trivial.
    + destruct x as [result|err].
      * rewrite run_afterEffect_fulfilled. exact I.
      * rewrite run_afterEffect_rejected. exact I.
  - destruct a as [x|x]; [discriminate|]. injection Ht as <-. subst k.
    apply dispatch_consistent; [| |assumption|].
    + destruct x; cbn; [intros _; eexists; reflexivity|exact Hconfig].
    + destruct x; cbn; [intros _; eexists; reflexivity|trivial].
    + destruct x; exact I.
Qed.

Lemma step_consistent (p : Page) (ev : Event) : consistent p -> consistent (step p ev).
Proof.
  intros Hp. pose proof Hp as [Hconfig Hpending].
  destruct ev as [[file|]|e| | | | |v|d|outsideAdd outsideRemove|n a]; cbn [step].
  - destruct (startsWith (File.type file) "image/") eqn:Htype.
    + apply dispatch_consistent; rewrite ?run_handleImageUpload_image by assumption;
        cbn; auto.
    + apply dispatch_frame; rewrite ?run_handleImageUpload_other by assumption;
        auto.
  - apply dispatch_frame; auto.
  - destruct (originalImage (ui p)) as [img|] eqn:Himg.
    + apply dispatch_consistent;
        rewrite ?(run_handleEffectClick_image _ img) by assumption; cbn;
        rewrite ?Himg; eauto.
    + apply dispatch_frame; rewrite ?run_handleEffectClick_no_image by assumption;
        auto.
  - unfold handleVariationClick.
    destruct (lastAppliedConfig (ui p)) as [c|] eqn:Hc; [|apply dispatch_frame; auto].
    destruct Hconfig as [img Himg]; [eauto|].
    apply dispatch_consistent;
      rewrite ?(run_runEffect_image _ _ _ _ _ _ img) by assumption; cbn;
      rewrite ?Himg, ?Hc; eauto.
  - destruct (run_handleDownload_state (ui p) (ui p)) as [Hstate Hstatus].
    apply dispatch_frame; rewrite ?Hstate; auto.
  - apply dispatch_frame; auto.
  - apply dispatch_frame; auto.
  - apply dispatch_frame; auto.
  - apply dispatch_frame; auto.
  - apply dispatch_frame; auto; destruct outsideAdd, outsideRemove; reflexivity.
  - destruct (pending p !! n) as [w|] eqn:Hw; [|assumption].
    destruct (resume w a) as [t|] eqn:Ht; [|assumption].
    eapply resume_consistent; eassumption.
Qed.

Lemma initialPage_consistent : consistent initialPage.
Proof.
  split; cbn; [intros [c Hc]; discriminate|constructor].
Qed.

Lemma replay_consistent (evs : list Event) (p : Page) :
  consistent p -> consistent (replay evs p).
Proof.
  revert p. induction evs as [|ev evs IH]; intros p Hp; cbn; [assumption|].
  apply IH, step_consistent, Hp.
Qed.

(** ** The claims *)

(** C1: in a state without an uploaded image, [runEffect] with any effect,
    intensity, direction and process tag ends at once: it sets the error
    to the "upload an image first" message and reaches no [await], so no
    call to the effect service is issued.  The same holds of the click
    handler that calls it. *)
Theorem runEffect_requires_image (s : AppState) (e : LightingEffect)
    (i : SunlightIntensity) (d : SunlightDirection.t) (processType : ActiveProcess) :
  originalImage s = None ->
  error (state (run (runEffect s e i d processType) s)) =
    Some "Please upload an image first." /\
  status (run (runEffect s e i d processType) s) = Finished tt /\
  remoteCalls (run (runEffect s e i d processType) s) = [] /\
  error (state (run (handleEffectClick s e) s)) = Some "Please upload an image first." /\
  status (run (handleEffectClick s e) s) = Finished tt /\
  remoteCalls (run (handleEffectClick s e) s) = [].
Proof.
  intros H.
  rewrite (run_runEffect_no_image _ _ _ _ _ _ H), (run_handleEffectClick_no_image _ _ H).
  repeat split.
Qed.

Lemma runEffect_requires_image_witness :
  originalImage initialState = None /\
  error (state (run (runEffect initialState shadows Intensity3 SunlightDirection.left
                       (Some (effectTag shadows))) initialState)) =
    Some "Please upload an image first.".
Proof.
  split; [reflexivity|].
  exact (proj1 (runEffect_requires_image initialState shadows Intensity3
                  SunlightDirection.left (Some (effectTag shadows)) eq_refl)).
Defined.

(** C2: with an image uploaded, [runEffect] under a tag other than
    'variation' suspends on the effect call; when that call is fulfilled,
    in whatever state the page then is, the handler finishes with the
    generated image set to the returned payload and the stored
    configuration set to the effect, intensity and direction of the
    call. *)
Theorem runEffect_success_stores_config (s : AppState) (img : ImageFile)
    (e : LightingEffect) (i : SunlightIntensity) (d : SunlightDirection.t)
    (processType : ActiveProcess) :
  originalImage s = Some img ->
  processType <> Some variation ->
  exists k,
    status (run (runEffect s e i d processType) s) =
      Suspended (applyLightingEffect img e i d) k /\
    forall (st : AppState) (result : string),
      status (run (k (Fulfilled result)) st) = Finished tt /\
      generatedImage (state (run (k (Fulfilled result)) st)) = Some result /\
      lastAppliedConfig (state (run (k (Fulfilled result)) st)) =
        Some {| effect := e; intensity := i; direction := d |}.
Proof.
  intros Himg Htag. exists (afterEffect e i d processType).
  rewrite (run_runEffect_image _ _ _ _ _ _ _ Himg). split; [reflexivity|].
  intros st result. rewrite run_afterEffect_fulfilled.
  destruct processType as [[tag|]|]; [| contradiction |]; repeat split.
Qed.

Lemma runEffect_success_stores_config_witness :
  originalImage withImage = Some beach /\
  Some (effectTag remove_shadows) <> Some variation /\
  exists k,
    status (run (runEffect withImage remove_shadows Intensity1 SunlightDirection.center
                   (Some (effectTag remove_shadows))) withImage) =
      Suspended (applyLightingEffect beach remove_shadows Intensity1
                   SunlightDirection.center) k /\
    forall (st : AppState) (result : string),
      status (run (k (Fulfilled result)) st) = Finished tt /\
      generatedImage (state (run (k (Fulfilled result)) st)) = Some result /\
      lastAppliedConfig (state (run (k (Fulfilled result)) st)) =
        Some {| effect := remove_shadows; intensity := Intensity1;
                direction := SunlightDirection.center |}.
Proof.
  split; [reflexivity|]. split; [discriminate|].
  apply (runEffect_success_stores_config withImage beach remove_shadows Intensity1
           SunlightDirection.center (Some (effectTag remove_shadows)));
    [reflexivity|discriminate].
Defined.

(** C3: with an image uploaded, whatever the effect call comes back with
    (a payload or a rejection) and in whatever state the page then is,
    the handler finishes with [isLoading] false and [activeProcess]
    null. *)
Theorem runEffect_always_clears_loading (s : AppState) (img : ImageFile)
    (e : LightingEffect) (i : SunlightIntensity) (d : SunlightDirection.t)
    (processType : ActiveProcess) :
  originalImage s = Some img ->
  exists k,
    status (run (runEffect s e i d processType) s) =
      Suspended (applyLightingEffect img e i d) k /\
    forall (st : AppState) (settled : Settled string),
      status (run (k settled) st) = Finished tt /\
      isLoading (state (run (k settled) st)) = false /\
      activeProcess (state (run (k settled) st)) = None.
Proof.
  intros Himg. exists (afterEffect e i d processType).
  rewrite (run_runEffect_image _ _ _ _ _ _ _ Himg). split; [reflexivity|].
  intros st [result|err].
  - rewrite run_afterEffect_fulfilled. repeat split.
  - rewrite run_afterEffect_rejected. repeat split.
Qed.

Lemma runEffect_always_clears_loading_witness :
  originalImage withImage = Some beach /\
  exists k,
    status (run (runEffect withImage sunlight Intensity2 SunlightDirection.top
                   (Some variation)) withImage) =
      Suspended (applyLightingEffect beach sunlight Intensity2 SunlightDirection.top) k /\
    forall (st : AppState) (settled : Settled string),
      status (run (k settled) st) = Finished tt /\
      isLoading (state (run (k settled) st)) = false /\
      activeProcess (state (run (k settled) st)) = None.
Proof.
  split; [reflexivity|].
  apply (runEffect_always_clears_loading withImage beach sunlight Intensity2
           SunlightDirection.top (Some variation)); reflexivity.
Defined.

(** C4: in every state the page can reach in which a configuration is
    stored, [handleVariationClick] issues one effect call, on the uploaded
    image and with the stored effect, intensity and direction, and the
    stored configuration is still the same while the call is out.  When
    the call is fulfilled the handler finishes without writing the stored
    configuration, whatever happened meanwhile; answered at once, it
    leaves the configuration that was replayed. *)
Theorem variation_replays_config (evs : list Event) (s : AppState) (c : EffectConfig) :
  s = ui (replay evs initialPage) ->
  lastAppliedConfig s = Some c ->
  exists img k,
    originalImage s = Some img /\
    status (run (handleVariationClick s) s) =
      Suspended (applyLightingEffect img (effect c) (intensity c) (direction c)) k /\
    remoteCalls (run (handleVariationClick s) s) =
      [ (img, effect c, intensity c, direction c) ] /\
    lastAppliedConfig (state (run (handleVariationClick s) s)) = Some c /\
    forall result : string,
      (forall st : AppState,
         status (run (k (Fulfilled result)) st) = Finished tt /\
         generatedImage (state (run (k (Fulfilled result)) st)) = Some result /\
         lastAppliedConfig (state (run (k (Fulfilled result)) st)) =
           lastAppliedConfig st) /\
      lastAppliedConfig
        (state (run (k (Fulfilled result)) (state (run (handleVariationClick s) s)))) =
        Some c.
Proof.
  intros -> Hc.
  destruct (replay_consistent evs _ initialPage_consistent) as [Hconfig _].
  destruct Hconfig as [img Himg]; [rewrite Hc; eauto|].
  exists img, (afterEffect (effect c) (intensity c) (direction c) (Some variation)).
  unfold handleVariationClick. rewrite Hc.
  rewrite (run_runEffect_image _ _ _ _ _ _ _ Himg). cbn.
  repeat split; assumption.
Qed.

Lemma variation_replays_config_witness :
  lastAppliedConfig (ui (replay scenario initialPage)) =
    Some {| effect := sunlight; intensity := Intensity2;
            direction := SunlightDirection.top |} /\
  exists img k,
    originalImage (ui (replay scenario initialPage)) = Some img /\
    status (run (handleVariationClick (ui (replay scenario initialPage)))
              (ui (replay scenario initialPage))) =
      Suspended (applyLightingEffect img sunlight Intensity2 SunlightDirection.top) k.
Proof.
  split; [reflexivity|].
  destruct (variation_replays_config scenario (ui (replay scenario initialPage))
              {| effect := sunlight; intensity := Intensity2;
                 direction := SunlightDirection.top |} eq_refl eq_refl)
    as (img & k & Himg & Hstatus & _).
  exists img, k. split; [exact Himg|exact Hstatus].
Defined.

(** C5: in a state without a stored configuration, [handleVariationClick]
    does nothing: the task finishes in the state it started in, with no
    call issued and nothing clicked, and the page, its waiting requests
    included, is the same after the event. *)
Theorem variation_without_config (p : Page) :
  lastAppliedConfig (ui p) = None ->
  run (handleVariationClick (ui p)) (ui p) =
    {| state := ui p; clicked := []; status := Finished tt |} /\
  remoteCalls (run (handleVariationClick (ui p)) (ui p)) = [] /\
  step p variationClicked = p.
Proof.
  intros H. unfold step, dispatch, handleVariationClick. rewrite H. cbn.
  repeat split. destruct p as [s waiting anchors]. cbn. rewrite app_nil_r. reflexivity.
Qed.

Lemma variation_without_config_witness :
  lastAppliedConfig (ui {| ui := withImage; pending := []; saved := [] |}) = None /\
  step {| ui := withImage; pending := []; saved := [] |} variationClicked =
    {| ui := withImage; pending := []; saved := [] |}.
Proof.
  split; [reflexivity|].
  exact (proj2 (proj2 (variation_without_config
                         {| ui := withImage; pending := []; saved := [] |} eq_refl))).
Defined.

(** C6: for a file whose type starts with "image/", [handleImageUpload]
    writes nothing and hands the file to the reader; when the reader
    fires [onload], in whatever state the page then is, the handler
    finishes with the uploaded image replaced by the record built from
    the file (its type, its name, and the part of the data URL after the
    comma) and with the generated image, the stored configuration and
    the error all null. *)
Theorem upload_image_resets (s : AppState) (file : File.t) :
  startsWith (File.type file) "image/" = true ->
  run (handleImageUpload (Some file)) s =
    {| state := s; clicked := [];
       status := Suspended (readAsDataURL file) (afterRead file) |} /\
  forall (st : AppState) (result : string),
    status (run (afterRead file (onload result)) st) = Finished tt /\
    originalImage (state (run (afterRead file (onload result)) st)) =
      Some {| base64 := index1 (split ","%char result);
              mimeType := File.type file;
              name := File.name file |} /\
    generatedImage (state (run (afterRead file (onload result)) st)) = None /\
    lastAppliedConfig (state (run (afterRead file (onload result)) st)) = None /\
    error (state (run (afterRead file (onload result)) st)) = None /\
    (forall header payload : string,
       result = header +:+ String ","%char payload ->
       has_char ","%char header = false ->
       has_char ","%char payload = false ->
       base64 <$> originalImage (state (run (afterRead file (onload result)) st)) =
         Some (Some payload)).
Proof.
  intros Htype. split; [apply run_handleImageUpload_image, Htype|].
  intros st result. repeat split.
  intros header payload -> Hh Hp. cbn. rewrite dataURL_payload by assumption. reflexivity.
Qed.

Lemma upload_image_resets_witness :
  startsWith (File.type photo) "image/" = true /\
  run (handleImageUpload (Some photo)) withoutImage =
    {| state := withoutImage; clicked := [];
       status := Suspended (readAsDataURL photo) (afterRead photo) |}.
Proof.
  split; [vm_compute; reflexivity|].
  apply (upload_image_resets withoutImage photo). vm_compute. reflexivity.
Defined.

(** C7: for a file whose type does not start with "image/",
    [handleImageUpload] finishes at once, without starting the reader:
    the uploaded image is the one of before and the error is the
    "valid image file" message. *)
Theorem upload_other_rejected (s : AppState) (file : File.t) :
  startsWith (File.type file) "image/" = false ->
  status (run (handleImageUpload (Some file)) s) = Finished tt /\
  originalImage (state (run (handleImageUpload (Some file)) s)) = originalImage s /\
  error (state (run (handleImageUpload (Some file)) s)) =
    Some "Please upload a valid image file (e.g., JPEG, PNG, WEBP).".
Proof.
  intros Htype. rewrite (run_handleImageUpload_other _ _ Htype). repeat split.
Qed.

Lemma upload_other_rejected_witness :
  startsWith (File.type textFile) "image/" = false /\
  originalImage (state (run (handleImageUpload (Some textFile)) withImage)) =
    originalImage withImage.
Proof.
  split; [vm_compute; reflexivity|].
  apply (upload_other_rejected withImage textFile). vm_compute. reflexivity.
Defined.

(** C8, as the code has it: with a non-empty generated image and an
    uploaded original, [handleDownload] clicks one anchor on the
    generated image and writes nothing.  Its file name ends in "-", the
    stored effect (or "enhanced" without one) and ".png"; it starts with
    what stands before the last dot of the original name when the name
    holds a dot and that part is not empty, which is when it is the name
    the spec gives, and with "image" otherwise. *)
Theorem handleDownload_file_name (s : AppState) (generated : string) (original : ImageFile) :
  generatedImage s = Some generated ->
  generated <> EmptyString ->
  originalImage s = Some original ->
  run (handleDownload s) s =
    {| state := s;
       clicked :=
         [ {| href := generated;
              download :=
                (if has_char "."%char (name original)
                 then or_else (Some (nameStem (name original))) "image"
                 else "image")
                +:+ "-" +:+ effectOrEnhanced (lastAppliedConfig s) +:+ ".png" |} ];
       status := Finished tt |} /\
  (has_char "."%char (name original) = true ->
   nameStem (name original) <> EmptyString ->
   download <$> clicked (run (handleDownload s) s) =
     [ specDownloadName original (lastAppliedConfig s) ]).
Proof.
  intros Hg Hne Himg.
  assert (run (handleDownload s) s =
            {| state := s;
               clicked :=
                 [ {| href := generated;
                      download :=
                        or_else (Some (splitStem (name original))) "image"
                        +:+ "-" +:+ effectOrEnhanced (lastAppliedConfig s) +:+ ".png" |} ];
               status := Finished tt |}) as Hrun.
  { unfold handleDownload. rewrite Hg, Himg, (falsy_false _ Hne).
    destruct (lastAppliedConfig s) as [c|]; cbn -[or_else];
      rewrite ?or_else_effect_text; reflexivity. }
  rewrite Hrun, splitStem_nameStem. split.
  - destruct (has_char "."%char (name original)); reflexivity.
  - intros -> Hstem. cbn. unfold specDownloadName, effectOrEnhanced.
    destruct (nameStem (name original)); [contradiction|reflexivity].
Qed.

(** C8 as stated fails on a name without a dot: a generated image and an
    original named "photo" exist, the spec's name is "photo-shadows.png",
    and the anchor clicked is named "image-shadows.png". *)
Lemma handleDownload_file_name_counterexample :
  let s := ui (replay plainSession initialPage) in
  let original := {| base64 := Some "CCCC"; mimeType := "image/jpeg"; name := "photo" |} in
  generatedImage s = Some "data:image/png;base64,DDDD" /\
  originalImage s = Some original /\
  specDownloadName original (lastAppliedConfig s) = "photo-shadows.png" /\
  download <$> clicked (run (handleDownload s) s) = [ "image-shadows.png" ] /\
  download <$> clicked (run (handleDownload s) s) <>
    [ specDownloadName original (lastAppliedConfig s) ].
Proof. cbv zeta. repeat split. discriminate. Qed.

Lemma handleDownload_file_name_witness :
  generatedImage (ui (replay scenario initialPage)) = Some "data:image/png;base64,BBBB" /\
  "data:image/png;base64,BBBB" <> EmptyString /\
  originalImage (ui (replay scenario initialPage)) = Some beach /\
  download <$> clicked (run (handleDownload (ui (replay scenario initialPage)))
                          (ui (replay scenario initialPage))) =
    [ "beach.day-sunlight.png" ].
Proof.
  split; [reflexivity|]. split; [discriminate|]. split; [reflexivity|].
  pose proof (handleDownload_file_name (ui (replay scenario initialPage))
                "data:image/png;base64,BBBB" beach eq_refl
                ltac:(discriminate) eq_refl) as [Hrun _].
  rewrite Hrun. reflexivity.
Defined.

(** C9: with an image uploaded, the state in which [runEffect] reaches the
    effect call has [isLoading] true, [activeProcess] equal to the tag it
    was given (the effect itself when started from the effect menu), and
    both the generated image and the error null; the call carries the
    uploaded image and the requested parameters. *)
Theorem runEffect_start_state (s : AppState) (img : ImageFile)
    (e : LightingEffect) (i : SunlightIntensity) (d : SunlightDirection.t)
    (processType : ActiveProcess) :
  originalImage s = Some img ->
  (remoteCalls (run (runEffect s e i d processType) s) = [ (img, e, i, d) ] /\
   isLoading (state (run (runEffect s e i d processType) s)) = true /\
   activeProcess (state (run (runEffect s e i d processType) s)) = processType /\
   generatedImage (state (run (runEffect s e i d processType) s)) = None /\
   error (state (run (runEffect s e i d processType) s)) = None) /\
  (remoteCalls (run (handleEffectClick s e) s) =
     [ (img, e, sunlightIntensity s, sunlightDirection s) ] /\
   isLoading (state (run (handleEffectClick s e) s)) = true /\
   activeProcess (state (run (handleEffectClick s e) s)) = Some (effectTag e) /\
   generatedImage (state (run (handleEffectClick s e) s)) = None /\
   error (state (run (handleEffectClick s e) s)) = None).
Proof.
  intros Himg.
  rewrite (run_runEffect_image _ _ _ _ _ _ _ Himg), (run_handleEffectClick_image _ _ _ Himg).
  repeat split.
Qed.

Lemma runEffect_start_state_witness :
  originalImage withImage = Some beach /\
  generatedImage (state (run (handleEffectClick withImage sunlight_and_shadows)
                           withImage)) = None /\
  activeProcess (state (run (handleEffectClick withImage sunlight_and_shadows)
                          withImage)) = Some (effectTag sunlight_and_shadows).
Proof.
  split; [reflexivity|].
  pose proof (runEffect_start_state withImage beach sunlight_and_shadows Intensity2
                SunlightDirection.top None eq_refl) as [_ (_ & _ & Htag & Hgen & _)].
  split; [exact Hgen|exact Htag].
Defined.

(** C10: in a state without an uploaded image, [runEffect] changes the
    error and nothing else: [isLoading], [activeProcess], the generated
    image and the stored configuration keep their values, and so does
    every other field. *)
Theorem runEffect_failure_frame (s : AppState) (e : LightingEffect)
    (i : SunlightIntensity) (d : SunlightDirection.t) (processType : ActiveProcess) :
  originalImage s = None ->
  isLoading (state (run (runEffect s e i d processType) s)) = isLoading s /\
  activeProcess (state (run (runEffect s e i d processType) s)) = activeProcess s /\
  generatedImage (state (run (runEffect s e i d processType) s)) = generatedImage s /\
  lastAppliedConfig (state (run (runEffect s e i d processType) s)) = lastAppliedConfig s /\
  originalImage (state (run (runEffect s e i d processType) s)) = originalImage s /\
  sunlightIntensity (state (run (runEffect s e i d processType) s)) = sunlightIntensity s /\
  sunlightDirection (state (run (runEffect s e i d processType) s)) = sunlightDirection s /\
  isAddMenuOpen (state (run (runEffect s e i d processType) s)) = isAddMenuOpen s /\
  isRemoveMenuOpen (state (run (runEffect s e i d processType) s)) = isRemoveMenuOpen s /\
  clicked (run (runEffect s e i d processType) s) = [].
Proof.
  intros H. rewrite (run_runEffect_no_image _ _ _ _ _ _ H). repeat split.
Qed.

Lemma runEffect_failure_frame_witness :
  originalImage withoutImage = None /\
  isLoading (state (run (runEffect withoutImage sunlight Intensity2 SunlightDirection.top
                          (Some (effectTag sunlight))) withoutImage)) = true /\
  lastAppliedConfig (state (run (runEffect withoutImage sunlight Intensity2
                                   SunlightDirection.top (Some (effectTag sunlight)))
                              withoutImage)) =
    Some {| effect := shadows; intensity := Intensity1;
            direction := SunlightDirection.center |}.
Proof.
  split; [reflexivity|].
  pose proof (runEffect_failure_frame withoutImage sunlight Intensity2
                SunlightDirection.top (Some (effectTag sunlight)) eq_refl)
    as (Hloading & _ & _ & Hconfig & _).
  split; [exact Hloading|exact Hconfig].
Defined.

(** ** The shape of every step *)

Lemma dispatch_frame_moves (t : Task unit) (p : Page) :
  status (run t (ui p)) = Finished tt ->
  originalImage (state (run t (ui p))) = originalImage (ui p) ->
  generatedImage (state (run t (ui p))) = generatedImage (ui p) ->
  isLoading (state (run t (ui p))) = isLoading (ui p) ->
  activeProcess (state (run t (ui p))) = activeProcess (ui p) ->
  lastAppliedConfig (state (run t (ui p))) = lastAppliedConfig (ui p) ->
  moves p (dispatch t p (pending p)).
Proof.
  intros Hstatus Himg Hgen Hload Htag Hcfg.
  apply moves_frame; unfold dispatch; cbn; rewrite ?Hstatus; assumption || reflexivity.
Qed.

Lemma moves_refl (p : Page) : moves p p.
Proof. apply moves_frame; reflexivity. Qed.

Lemma resume_moves (p : Page) (n : nat) (w : Pending) (a : Answer) (t : Task unit) :
  consistent p ->
  pending p !! n = Some w ->
  resume w a = Some t ->
  moves p (dispatch t p (delete n (pending p))).
Proof.
  intros [_ Hpending] Hw Ht.
  pose proof (Forall_lookup_1 _ _ _ _ Hpending Hw) as Hissued.
  destruct w as [R q k]. destruct q as [original e i d|file]; cbn in Ht, Hissued.
  - destruct a as [x|x]; [|discriminate]. injection Ht as <-.
    destruct Hissued as [Himg [processType ->]].
    apply (moves_settled _ _ n original e i d processType x); try assumption.
    + reflexivity.
    + unfold dispatch. cbn.
      destruct x; [rewrite run_afterEffect_fulfilled|rewrite run_afterEffect_rejected];
        reflexivity.
  - destruct a as [x|x]; [discriminate|]. injection Ht as <-. subst k.
    apply (moves_read _ _ n file x); try assumption.
    + reflexivity.
    + unfold dispatch. destruct x; reflexivity.
Qed.

Lemma step_moves (p : Page) (ev : Event) : consistent p -> moves p (step p ev).
Proof.
  intros Hp. pose proof Hp as [Hconfig _].
  destruct ev as [[file|]|e| | | | |v|d|outsideAdd outsideRemove|n a]; cbn [step].
  - destruct (startsWith (File.type file) "image/") eqn:Htype.
    + apply (moves_reading _ _ file); unfold dispatch;
        rewrite run_handleImageUpload_image by assumption; reflexivity.
    + apply dispatch_frame_moves;
        rewrite run_handleImageUpload_other by assumption; reflexivity.
  - apply dispatch_frame_moves; reflexivity.
  - destruct (originalImage (ui p)) as [original|] eqn:Himg.
    + apply (moves_calling _ _ original e (sunlightIntensity (ui p))
               (sunlightDirection (ui p)) (effectTag e)
               (write (setIsRemoveMenuOpen false) (write (setIsAddMenuOpen false) (ui p))));
        unfold dispatch;
        rewrite ?(run_handleEffectClick_image _ original) by assumption;
        try reflexivity; assumption.
    + apply dispatch_frame_moves;
        rewrite run_handleEffectClick_no_image by assumption; reflexivity.
  - unfold handleVariationClick.
    destruct (lastAppliedConfig (ui p)) as [c|] eqn:Hc;
      [|apply dispatch_frame_moves; reflexivity].
    destruct Hconfig as [original Himg]; [eauto|].
    apply (moves_calling _ _ original (effect c) (intensity c) (direction c)
             variation (ui p));
      unfold dispatch;
      rewrite ?(run_runEffect_image _ _ _ _ _ _ original) by assumption;
      try reflexivity; assumption.
  - destruct (run_handleDownload_state (ui p) (ui p)) as [Hstate Hstatus].
    apply dispatch_frame_moves; rewrite ?Hstate; auto.
  - apply dispatch_frame_moves; reflexivity.
  - apply dispatch_frame_moves; reflexivity.
  - apply dispatch_frame_moves; reflexivity.
  - apply dispatch_frame_moves; reflexivity.
  - apply dispatch_frame_moves; destruct outsideAdd, outsideRemove; reflexivity.
  - destruct (pending p !! n) as [w|] eqn:Hw; [|apply moves_refl].
    destruct (resume w a) as [t|] eqn:Ht; [|apply moves_refl].
    eapply resume_moves; eassumption.
Qed.

(** ** Every reachable page is coherent *)

Lemma Exists_delete_other {A : Type} (P : A -> Prop) (l : list A) (n : nat) (x : A) :
  Exists P l -> l !! n = Some x -> ~ P x -> Exists P (delete n l).
Proof.
  revert n. induction l as [|y l IH]; intros n Hex Hn Hx; [inversion Hex|].
  destruct n as [|n]; cbn in *.
  - injection Hn as ->. inversion Hex; [contradiction|assumption].
  - inversion Hex as [? ? Hy|? ? Hl]; subst.
    + apply Exists_cons_hd, Hy.
    + apply Exists_cons_tl, (IH n Hl Hn Hx).
Qed.

Lemma initialPage_coherent : coherent initialPage.
Proof.
  split; cbn.
  - apply initialPage_consistent.
  - split; [discriminate|intros [t Ht]; discriminate].
  - intros [g Hg]. discriminate.
  - discriminate.
  - discriminate.
Qed.

Lemma moves_coherent (p p' : Page) :
  coherent p -> consistent p' -> moves p p' -> coherent p'.
Proof.
  intros [Hp Htag Hres Hwait Hblank] Hp' Hmoves. split; [assumption| | | |].
  - destruct Hmoves as [Hq Himg Hgen Hload Hact Hcfg|file Hq Hui
                       |original e i d tag s0 Himg Hs0 Hc0 Hui Hq
                       |n original e i d processType x Hn Himg Hui Hq
                       |n file x Hn Hui Hq].
    + rewrite Hload, Hact. exact Htag.
    + rewrite Hui. exact Htag.
    + rewrite Hui. cbn. split; eauto.
    + rewrite Hui.
      destruct x; [rewrite run_afterEffect_fulfilled|rewrite run_afterEffect_rejected];
        cbn; (split; [discriminate|intros [t Ht]; discriminate]).
    + rewrite Hui. destruct x; exact Htag.
  - destruct Hmoves as [Hq Himg Hgen Hload Hact Hcfg|file Hq Hui
                       |original e i d tag s0 Himg Hs0 Hc0 Hui Hq
                       |n original e i d processType x Hn Himg Hui Hq
                       |n file x Hn Hui Hq].
    + rewrite Hgen, Himg. exact Hres.
    + rewrite Hui. exact Hres.
    + rewrite Hui. cbn. intros [g Hg]. discriminate.
    + rewrite Hui.
      destruct x; [rewrite run_afterEffect_fulfilled|rewrite run_afterEffect_rejected].
      * intros _. destruct processType as [[|]|]; exact Himg.
      * exact Hres.
    + rewrite Hui. destruct x; cbn; [intros [g Hg]; discriminate|exact Hres].
  - destruct Hmoves as [Hq Himg Hgen Hload Hact Hcfg|file Hq Hui
                       |original e i d tag s0 Himg Hs0 Hc0 Hui Hq
                       |n original e i d processType x Hn Himg Hui Hq
                       |n file x Hn Hui Hq].
    + rewrite Hload, Hq. exact Hwait.
    + rewrite Hui, Hq. intros H. apply Exists_app. left. exact (Hwait H).
    + rewrite Hq. intros _. apply Exists_app. right. apply Exists_cons_hd. reflexivity.
    + rewrite Hui.
      destruct x; [rewrite run_afterEffect_fulfilled|rewrite run_afterEffect_rejected];
        cbn; discriminate.
    + rewrite Hui, Hq. intros H.
      eapply Exists_delete_other; [|exact Hn|cbn; discriminate].
      apply Hwait. destruct x; exact H.
  - destruct Hmoves as [Hq Himg Hgen Hload Hact Hcfg|file Hq Hui
                       |original e i d tag s0 Himg Hs0 Hc0 Hui Hq
                       |n original e i d processType x Hn Himg Hui Hq
                       |n file x Hn Hui Hq].
    + rewrite Hload, Hgen. exact Hblank.
    + rewrite Hui. exact Hblank.
    + rewrite Hui. reflexivity.
    + rewrite Hui.
      destruct x; [rewrite run_afterEffect_fulfilled|rewrite run_afterEffect_rejected];
        cbn; discriminate.
    + rewrite Hui. destruct x; [reflexivity|exact Hblank].
Qed.

Lemma step_coherent (p : Page) (ev : Event) : coherent p -> coherent (step p ev).
Proof.
  intros Hp. pose proof (coherent_consistent _ Hp) as Hc.
  apply (moves_coherent p); [assumption|apply step_consistent, Hc|apply step_moves, Hc].
Qed.

Lemma replay_coherent (evs : list Event) (p : Page) :
  coherent p -> coherent (replay evs p).
Proof.
  revert p. induction evs as [|ev evs IH]; intros p Hp; cbn; [assumption|].
  apply IH, step_coherent, Hp.
Qed.

Lemma moves_keeps_image (p p' : Page) :
  moves p p' -> is_Some (originalImage (ui p)) -> is_Some (originalImage (ui p')).
Proof.
  intros [Hq Himg Hgen Hload Hact Hcfg|file Hq Hui
         |original e i d tag s0 Himg Hs0 Hc0 Hui Hq
         |n original e i d processType x Hn Himg Hui Hq
         |n file x Hn Hui Hq] H.
  - rewrite Himg. exact H.
  - rewrite Hui. exact H.
  - rewrite Hui. cbn. rewrite Hs0. exact H.
  - rewrite Hui.
    destruct x; [rewrite run_afterEffect_fulfilled|rewrite run_afterEffect_rejected];
      [destruct processType as [[|]|]|]; exact H.
  - rewrite Hui. destruct x; cbn; [eexists; reflexivity|exact H].
Qed.

Lemma replay_app (evs evs' : list Event) (p : Page) :
  replay (evs ++ evs') p = replay evs' (replay evs p).
Proof. apply foldl_app. Qed.

(** ** More of what the handlers do *)

Lemma or_else_not_empty (x : option string) (d : string) :
  d <> EmptyString -> or_else x d <> EmptyString.
Proof. intros Hd. destruct x as [[|a s]|]; cbn; [assumption|discriminate|assumption]. Qed.

Lemma falsy_or_else (x : option string) (d : string) :
  d <> EmptyString -> falsy (Some (or_else x d)) = false.
Proof. intros Hd. apply falsy_false, or_else_not_empty, Hd. Qed.

(** X1: without a generated image (null, or the empty string) or without
    an uploaded original, [handleDownload] returns at its guard: nothing
    is clicked, nothing is written, whatever the state it runs in. *)
Theorem download_nothing_to_save (s st : AppState) :
  falsy (generatedImage s) = true \/ originalImage s = None ->
  run (handleDownload s) st = {| state := st; clicked := []; status := Finished tt |}.
Proof.
  unfold handleDownload. intros [Hg|Himg].
  - destruct (generatedImage s) as [[|a g]|]; [|discriminate|reflexivity].
    destruct (originalImage s); reflexivity.
  - rewrite Himg. destruct (generatedImage s); reflexivity.
Qed.

Lemma download_nothing_to_save_witness :
  (falsy (generatedImage initialState) = true \/ originalImage initialState = None) /\
  run (handleDownload initialState) withImage =
    {| state := withImage; clicked := []; status := Finished tt |}.
Proof.
  split; [left; reflexivity|].
  apply (download_nothing_to_save initialState withImage). left. reflexivity.
Defined.

(** X2: [handleDownload] never writes the state and never waits on a
    request.  It clicks at most one anchor; that anchor points at the
    generated image, and its file name is a non-empty stem, "-", the
    stored effect or "enhanced", and ".png". *)
Theorem download_only_saves (s st : AppState) :
  state (run (handleDownload s) st) = st /\
  status (run (handleDownload s) st) = Finished tt /\
  (clicked (run (handleDownload s) st) = [] \/
   exists generated stem : string,
     generatedImage s = Some generated /\
     stem <> EmptyString /\
     clicked (run (handleDownload s) st) =
       [ {| href := generated;
            download := stem +:+ "-" +:+ effectOrEnhanced (lastAppliedConfig s)
                        +:+ ".png" |} ]).
Proof.
  destruct (run_handleDownload_state s st) as [Hstate Hstatus].
  split; [assumption|]. split; [assumption|].
  unfold handleDownload.
  destruct (generatedImage s) as [[|a g]|];
    [left; destruct (originalImage s); reflexivity| |left; reflexivity].
  destruct (originalImage s) as [original|]; [|left; reflexivity].
  right. exists (String a g), (or_else (Some (splitStem (name original))) "image").
  split; [reflexivity|]. split; [apply or_else_not_empty; discriminate|].
  destruct (lastAppliedConfig s) as [c|]; cbn -[or_else];
    rewrite ?or_else_effect_text; reflexivity.
Qed.





(** ** More of what every reachable page satisfies *)

Lemma replay_keeps_image (evs : list Event) (p : Page) :
  consistent p ->
  is_Some (originalImage (ui p)) -> is_Some (originalImage (ui (replay evs p))).
Proof.
  revert p. induction evs as [|ev evs IH]; intros p Hp Himg; cbn; [assumption|].
  apply IH; [apply step_consistent, Hp|].
  apply (moves_keeps_image p); [apply step_moves, Hp|assumption].
Qed.

(** X5: once an image is uploaded, no later sequence of events and
    answers leaves the page without one: the code never sets
    [originalImage] back to null. *)
Theorem image_never_cleared (evs later : list Event) :
  is_Some (originalImage (ui (replay evs initialPage))) ->
  is_Some (originalImage (ui (replay (evs ++ later) initialPage))).
Proof.
  intros Himg. rewrite replay_app.
  apply replay_keeps_image; [|assumption].
  apply replay_consistent, initialPage_consistent.
Qed.

Lemma image_never_cleared_witness :
  is_Some (originalImage (ui (replay scenario initialPage))) /\
  is_Some (originalImage
             (ui (replay (scenario ++ [ fileChanged (Some textFile); variationClicked ])
                    initialPage))).
Proof.
  split; [eexists; reflexivity|].
  apply (image_never_cleared scenario [ fileChanged (Some textFile); variationClicked ]).
  eexists. reflexivity.
Defined.

(** X6: in every reachable page the loading flag is up exactly when a
    process tag is set: [isLoading] and [activeProcess] are only ever
    written together. *)
Theorem loading_iff_tagged (evs : list Event) :
  isLoading (ui (replay evs initialPage)) = true <->
  is_Some (activeProcess (ui (replay evs initialPage))).
Proof. apply loading_tagged, replay_coherent, initialPage_coherent. Qed.

(** X7: in every reachable page that is loading, an effect call is still
    waiting for its answer. *)
Theorem loading_has_call (evs : list Event) :
  isLoading (ui (replay evs initialPage)) = true ->
  exists (n : nat) (original : ImageFile) (e : LightingEffect) (i : SunlightIntensity)
         (d : SunlightDirection.t) (k : Settled string -> Task unit),
    pending (replay evs initialPage) !! n =
      Some (Waiting (applyLightingEffect original e i d) k).
Proof.
  intros Hload.
  pose proof (loading_waits _ (replay_coherent evs _ initialPage_coherent) Hload) as Hex.
  apply Exists_exists in Hex as (w & Hin & Hw).
  apply list_elem_of_lookup in Hin as [n Hn].
  destruct w as [R q k]. destruct q as [original e i d|file]; [|discriminate].
  exists n, original, e, i, d, k. exact Hn.
Qed.

Lemma loading_has_call_witness :
  isLoading (ui (replay (scenario ++ [ variationClicked ]) initialPage)) = true /\
  exists (n : nat) (original : ImageFile) (e : LightingEffect) (i : SunlightIntensity)
         (d : SunlightDirection.t) (k : Settled string -> Task unit),
    pending (replay (scenario ++ [ variationClicked ]) initialPage) !! n =
      Some (Waiting (applyLightingEffect original e i d) k).
Proof.
  split; [reflexivity|].
  apply (loading_has_call (scenario ++ [ variationClicked ])). reflexivity.
Defined.

(** X8: in a reachable page, answering any waiting effect call with a
    payload shows that payload as the generated image, clears the
    loading flag and the tag, and takes that one request off the queue,
    whether or not other calls are still out: the last answer decides
    what is shown.  The uploaded image and the error are not written. *)
Theorem answer_settles (evs : list Event) (n : nat) (original : ImageFile)
    (e : LightingEffect) (i : SunlightIntensity) (d : SunlightDirection.t)
    (k : Settled string -> Task unit) (result : string) :
  pending (replay evs initialPage) !! n =
    Some (Waiting (applyLightingEffect original e i d) k) ->
  generatedImage
    (ui (step (replay evs initialPage) (answered n (effectSettled (Fulfilled result))))) =
    Some result /\
  isLoading
    (ui (step (replay evs initialPage) (answered n (effectSettled (Fulfilled result))))) =
    false /\
  activeProcess
    (ui (step (replay evs initialPage) (answered n (effectSettled (Fulfilled result))))) =
    None /\
  pending (step (replay evs initialPage) (answered n (effectSettled (Fulfilled result)))) =
    delete n (pending (replay evs initialPage)) /\
  originalImage
    (ui (step (replay evs initialPage) (answered n (effectSettled (Fulfilled result))))) =
    originalImage (ui (replay evs initialPage)) /\
  error
    (ui (step (replay evs initialPage) (answered n (effectSettled (Fulfilled result))))) =
    error (ui (replay evs initialPage)).
Proof.
  intros Hn.
  destruct (replay_consistent evs _ initialPage_consistent) as [_ Hpending].
  pose proof (Forall_lookup_1 _ _ _ _ Hpending Hn) as [_ [processType ->]].
  cbn [step]. rewrite Hn. cbn [resume]. unfold dispatch.
  rewrite run_afterEffect_fulfilled.
  destruct processType as [[tag|]|]; repeat split.
Qed.

Lemma answer_settles_witness :
  pending (replay overlapping initialPage) !! 1%nat =
    Some (Waiting (applyLightingEffect beach remove_shadows Intensity2 SunlightDirection.top)
            (afterEffect remove_shadows Intensity2 SunlightDirection.top
               (Some (effectTag remove_shadows)))) /\
  isLoading
    (ui (step (replay overlapping initialPage)
           (answered 1 (effectSettled (Fulfilled "data:image/png;base64,SECOND"))))) =
    false /\
  length (pending (step (replay overlapping initialPage)
                     (answered 1 (effectSettled (Fulfilled "data:image/png;base64,SECOND"))))) =
    1%nat.
Proof.
  assert (pending (replay overlapping initialPage) !! 1%nat =
            Some (Waiting (applyLightingEffect beach remove_shadows Intensity2
                             SunlightDirection.top)
                    (afterEffect remove_shadows Intensity2 SunlightDirection.top
                       (Some (effectTag remove_shadows))))) as Hn
    by (vm_compute; reflexivity).
  split; [exact Hn|].
  destruct (answer_settles overlapping 1 beach remove_shadows Intensity2
              SunlightDirection.top _ "data:image/png;base64,SECOND" Hn)
    as (_ & Hload & _ & Hq & _).
  split; [exact Hload|]. rewrite Hq. vm_compute. reflexivity.
Defined.

(** ** What is rendered *)

(** X9: in [ImageDisplay], a download button is rendered only when the
    pane is not loading and shows a non-empty image, never beside the
    spinner or the placeholder; and whenever the pane shows an image, the
    button is there exactly if a download handler was passed. *)
Theorem download_button_beside_image (props : ImageDisplay.Props) :
  (forall t : Task unit,
     ImageDisplay.downloadButton (ImageDisplay.render props) = Some t ->
     ImageDisplay.onDownload props = Some t /\
     ImageDisplay.isLoading props = false /\
     exists src : string,
       src <> EmptyString /\
       ImageDisplay.imageSrc props = Some src /\
       ImageDisplay.body (ImageDisplay.render props) =
         ImageDisplay.img src (ImageDisplay.title props)) /\
  (forall src alt : string,
     ImageDisplay.body (ImageDisplay.render props) = ImageDisplay.img src alt ->
     ImageDisplay.downloadButton (ImageDisplay.render props) =
       ImageDisplay.onDownload props).
Proof.
  destruct props as [title [[|a src]|] [|] placeholderText loadingText onDownload];
    cbn; split; try discriminate; intros;
    try (split; [assumption|]; split; [reflexivity|]; eexists;
         repeat split; discriminate);
    reflexivity.
Qed.

(** X10: in a reachable page, when the enhanced pane offers the download
    button, the page is not loading and the handler behind the button
    clicks exactly one anchor, on the image the pane shows, and writes
    nothing: the button is never a dead one. *)
Theorem download_button_saves (evs : list Event) (t : Task unit) :
  ImageDisplay.downloadButton (enhancedPane (render (ui (replay evs initialPage)))) =
    Some t ->
  exists (generated : string) (a : Anchor),
    ImageDisplay.body (enhancedPane (render (ui (replay evs initialPage)))) =
      ImageDisplay.img generated "AI Enhanced Image" /\
    isLoading (ui (replay evs initialPage)) = false /\
    run t (ui (replay evs initialPage)) =
      {| state := ui (replay evs initialPage); clicked := [ a ];
         status := Finished tt |} /\
    href a = generated.
Proof.
  pose proof (result_has_image _ (replay_coherent evs _ initialPage_coherent)) as Hres.
  generalize dependent (ui (replay evs initialPage)). intros s Hres. cbn.
  destruct (generatedImage s) as [[|c g]|] eqn:Hg; cbn; try discriminate.
  destruct (isLoading s); cbn; [discriminate|].
  intros [= <-]. destruct Hres as [original Himg]; [eauto|].
  eexists _, _. split; [reflexivity|]. split; [reflexivity|].
  unfold handleDownload. rewrite Hg, Himg. cbn -[or_else]. split; reflexivity.
Qed.

Lemma download_button_saves_witness :
  ImageDisplay.downloadButton (enhancedPane (render (ui (replay scenario initialPage)))) =
    Some (handleDownload (ui (replay scenario initialPage))) /\
  exists (generated : string) (a : Anchor),
    ImageDisplay.body (enhancedPane (render (ui (replay scenario initialPage)))) =
      ImageDisplay.img generated "AI Enhanced Image" /\
    isLoading (ui (replay scenario initialPage)) = false /\
    run (handleDownload (ui (replay scenario initialPage)))
      (ui (replay scenario initialPage)) =
      {| state := ui (replay scenario initialPage); clicked := [ a ];
         status := Finished tt |} /\
    href a = generated.
Proof.
  assert (ImageDisplay.downloadButton
            (enhancedPane (render (ui (replay scenario initialPage)))) =
          Some (handleDownload (ui (replay scenario initialPage)))) as Hbutton
    by (vm_compute; reflexivity).
  split; [exact Hbutton|].
  exact (download_button_saves scenario _ Hbutton).
Defined.

(** X11: in every reachable page, the three footer buttons show exactly
    one spinner while the page is loading and none otherwise: the add,
    remove and variation spinners exclude one another and together cover
    every tag a handler sets. *)
Theorem one_spinner (evs : list Event) :
  length (List.filter id
            [ spinning (addButton (render (ui (replay evs initialPage))));
              spinning (removeButton (render (ui (replay evs initialPage))));
              spinning (variationButton (render (ui (replay evs initialPage)))) ]) =
  if isLoading (ui (replay evs initialPage)) then 1%nat else 0%nat.
Proof.
  pose proof (loading_tagged _ (replay_coherent evs _ initialPage_coherent)) as Htag.
  generalize dependent (ui (replay evs initialPage)). intros s Htag.
  cbn [render addButton removeButton variationButton spinning].
  destruct (isLoading s); [|reflexivity].
  destruct Htag as [Htag _]. destruct (Htag eq_refl) as [tag Hact].
  unfold isAdding, isRemoving. rewrite Hact.
  destruct tag as [[]|]; reflexivity.
Qed.

(** X12: in a reachable page, when the enhanced pane shows the spinner,
    the text beside it is the one of the running operation, never the
    fallback "AI is working its magic...". *)
Theorem loading_text_is_specific (evs : list Event) (text : string) :
  ImageDisplay.body (enhancedPane (render (ui (replay evs initialPage)))) =
    ImageDisplay.spinner text ->
  isLoading (ui (replay evs initialPage)) = true /\
  text = loadingText (ui (replay evs initialPage)) /\
  text <> "AI is working its magic...".
Proof.
  pose proof (loading_tagged _ (replay_coherent evs _ initialPage_coherent)) as Htag.
  generalize dependent (ui (replay evs initialPage)). intros s Htag. cbn.
  destruct (isLoading s).
  - intros [= <-]. split; [reflexivity|]. split; [reflexivity|].
    destruct Htag as [Htag _]. destruct (Htag eq_refl) as [tag Hact].
    unfold loadingText. rewrite Hact.
    destruct tag as [[]|]; destruct (sunlightIntensity s), (sunlightDirection s);
      vm_compute; discriminate.
  - destruct (generatedImage s) as [[|c g]|]; discriminate.
Qed.

Lemma loading_text_is_specific_witness :
  ImageDisplay.body
    (enhancedPane (render (ui (replay (scenario ++ [ effectClicked sunlight_and_shadows ])
                                 initialPage)))) =
    ImageDisplay.spinner "Adding more sunlight from the top and shadows..." /\
  "Adding more sunlight from the top and shadows..." <> "AI is working its magic...".
Proof.
  assert (ImageDisplay.body
            (enhancedPane
               (render (ui (replay (scenario ++ [ effectClicked sunlight_and_shadows ])
                              initialPage)))) =
          ImageDisplay.spinner "Adding more sunlight from the top and shadows...") as Hbody
    by (vm_compute; reflexivity).
  split; [exact Hbody|].
  exact (proj2 (proj2 (loading_text_is_specific _ _ Hbody))).
Defined.

(** ** Handlers one after another *)

Lemma append_assoc (s t u : string) : (s +:+ t) +:+ u = s +:+ t +:+ u.
Proof.
  induction s as [|a s IH]; [reflexivity|].
  rewrite !append_cons, IH. reflexivity.
Qed.

(** X13: started from the effect menu on a page with an image,
    [handleEffectClick] closes both menus and calls the service with the
    values the intensity and direction controls have at the click.  When
    the call is fulfilled those values, not the ones the controls have by
    then, are stored as the configuration, and the controls themselves
    are not written. *)
Theorem effect_click_snapshot (s : AppState) (original : ImageFile) (e : LightingEffect) :
  originalImage s = Some original ->
  exists k,
    status (run (handleEffectClick s e) s) =
      Suspended (applyLightingEffect original e (sunlightIntensity s) (sunlightDirection s))
        k /\
    isAddMenuOpen (state (run (handleEffectClick s e) s)) = false /\
    isRemoveMenuOpen (state (run (handleEffectClick s e) s)) = false /\
    forall (st : AppState) (result : string),
      lastAppliedConfig (state (run (k (Fulfilled result)) st)) =
        Some {| effect := e; intensity := sunlightIntensity s;
                direction := sunlightDirection s |} /\
      sunlightIntensity (state (run (k (Fulfilled result)) st)) = sunlightIntensity st /\
      sunlightDirection (state (run (k (Fulfilled result)) st)) = sunlightDirection st.
Proof.
  intros Himg. rewrite (run_handleEffectClick_image _ _ _ Himg).
  eexists. split; [reflexivity|]. repeat split.
Qed.

Lemma effect_click_snapshot_witness :
  originalImage withImage = Some beach /\
  exists k,
    status (run (handleEffectClick withImage sunlight) withImage) =
      Suspended (applyLightingEffect beach sunlight Intensity3 SunlightDirection.right) k /\
    lastAppliedConfig (state (run (k (Fulfilled "data:image/png;base64,NEW")) initialState)) =
      Some {| effect := sunlight; intensity := Intensity3;
              direction := SunlightDirection.right |}.
Proof.
  split; [reflexivity|].
  destruct (effect_click_snapshot withImage beach sunlight eq_refl)
    as (k & Hstatus & _ & _ & Hk).
  exists k. split; [exact Hstatus|].
  exact (proj1 (Hk initialState "data:image/png;base64,NEW")).
Defined.

(** X14: the original pane shows back the data URL the reader delivered.
    For an accepted file of type [ty] and a payload, both without a
    comma, after [onload] with [data:ty;base64,payload] the stored image
    holds the payload and the original pane renders an image whose source
    is that same URL. *)
Theorem dataURL_round_trip (s : AppState) (file : File.t) (payload : string) :
  startsWith (File.type file) "image/" = true ->
  has_char ","%char (File.type file) = false ->
  has_char ","%char payload = false ->
  exists k,
    status (run (handleImageUpload (Some file)) s) = Suspended (readAsDataURL file) k /\
    forall st : AppState,
      originalImage
        (state (run (k (onload ("data:" +:+ File.type file +:+ ";base64," +:+ payload))) st)) =
        Some {| base64 := Some payload; mimeType := File.type file;
                name := File.name file |} /\
      ImageDisplay.body
        (originalPane
           (render (state (run (k (onload ("data:" +:+ File.type file +:+ ";base64," +:+
                                            payload))) st)))) =
        ImageDisplay.img ("data:" +:+ File.type file +:+ ";base64," +:+ payload)
          "Original Image".
Proof.
  intros Htype Hty Hpayload. exists (afterRead file).
  rewrite (run_handleImageUpload_image _ _ Htype). split; [reflexivity|]. intros st.
  assert (index1 (split ","%char ("data:" +:+ File.type file +:+ ";base64," +:+ payload)) =
          Some payload) as Hsplit.
  { replace ("data:" +:+ File.type file +:+ ";base64," +:+ payload)
      with (("data:" +:+ File.type file +:+ ";base64") +:+ String ","%char payload)
      by (rewrite !append_assoc; reflexivity).
    apply dataURL_payload; [|assumption].
    rewrite !has_char_app, Hty. reflexivity. }
  cbn. rewrite Hsplit. split; reflexivity.
Qed.

Lemma dataURL_round_trip_witness :
  startsWith (File.type photo) "image/" = true /\
  has_char ","%char (File.type photo) = false /\
  has_char ","%char "AAAA" = false /\
  exists k,
    status (run (handleImageUpload (Some photo)) initialState) =
      Suspended (readAsDataURL photo) k /\
    ImageDisplay.body
      (originalPane
         (render (state (run (k (onload "data:image/png;base64,AAAA")) initialState)))) =
      ImageDisplay.img "data:image/png;base64,AAAA" "Original Image".
Proof.
  split; [vm_compute; reflexivity|]. split; [reflexivity|]. split; [reflexivity|].
  destruct (dataURL_round_trip initialState photo "AAAA"
              ltac:(vm_compute; reflexivity) eq_refl eq_refl) as (k & Hstatus & Hk).
  exists k. split; [exact Hstatus|].
  exact (proj2 (Hk initialState)).
Defined.

(** ** What the answers and the other events leave alone *)

(** A resumed task is the rest of [runEffect] or a reader callback. *)
Lemma resume_known (p : Page) (n : nat) (w : Pending) (a : Answer) (t : Task unit) :
  consistent p ->
  pending p !! n = Some w ->
  resume w a = Some t ->
  (exists e i d processType x, t = afterEffect e i d processType x) \/
  (exists file x, t = afterRead file x).
Proof.
  intros [_ Hpending] Hw Ht.
  pose proof (Forall_lookup_1 _ _ _ _ Hpending Hw) as Hissued.
  destruct w as [R q k]. destruct q as [original e i d|file]; cbn in Ht, Hissued.
  - destruct a as [x|x]; [|discriminate]. injection Ht as <-.
    destruct Hissued as [_ [processType ->]]. left. eauto 6.
  - destruct a as [x|x]; [discriminate|]. injection Ht as <-. subst k.
    right. eauto.
Qed.

(** Neither clicks an anchor nor writes a menu flag. *)
Lemma resumed_quiet (t : Task unit) (st : AppState) :
  (exists e i d processType x, t = afterEffect e i d processType x) \/
  (exists file x, t = afterRead file x) ->
  clicked (run t st) = [] /\
  isAddMenuOpen (state (run t st)) = isAddMenuOpen st /\
  isRemoveMenuOpen (state (run t st)) = isRemoveMenuOpen st.
Proof.
  intros [(e & i & d & processType & x & ->)|(file & x & ->)].
  - destruct x; [rewrite run_afterEffect_fulfilled|rewrite run_afterEffect_rejected];
      [destruct processType as [[|]|]|]; repeat split.
  - destruct x; repeat split.
Qed.

(** X15: in a reachable page, a menu that is open after an event other
    than the click on its own button was open before it: no handler, no
    answer and no mouse-down opens a menu. *)
Theorem menus_open_only_by_toggle (evs : list Event) (ev : Event) :
  (ev <> addMenuToggled ->
   isAddMenuOpen (ui (step (replay evs initialPage) ev)) = true ->
   isAddMenuOpen (ui (replay evs initialPage)) = true) /\
  (ev <> removeMenuToggled ->
   isRemoveMenuOpen (ui (step (replay evs initialPage) ev)) = true ->
   isRemoveMenuOpen (ui (replay evs initialPage)) = true).
Proof.
  pose proof (replay_consistent evs _ initialPage_consistent) as Hp.
  generalize dependent (replay evs initialPage). intros p Hp.
  destruct ev as [[file|]|e| | | | |v|d|outsideAdd outsideRemove|n a]; cbn [step];
    try (split; intros _; exact (fun H => H)).
  - destruct (startsWith (File.type file) "image/") eqn:Htype; unfold dispatch;
      [rewrite run_handleImageUpload_image by assumption
      |rewrite run_handleImageUpload_other by assumption];
      split; intros _; exact (fun H => H).
  - destruct (originalImage (ui p)) as [original|] eqn:Himg; unfold dispatch;
      [rewrite (run_handleEffectClick_image _ original) by assumption
      |rewrite run_handleEffectClick_no_image by assumption];
      split; intros _; discriminate.
  - unfold handleVariationClick.
    destruct (lastAppliedConfig (ui p)) as [c|]; [|split; intros _; exact (fun H => H)].
    destruct (originalImage (ui p)) as [original|] eqn:Himg; unfold dispatch;
      [rewrite (run_runEffect_image _ _ _ _ _ _ original) by assumption
      |rewrite run_runEffect_no_image by assumption];
      split; intros _; exact (fun H => H).
  - unfold dispatch. destruct (run_handleDownload_state (ui p) (ui p)) as [-> _].
    split; intros _; exact (fun H => H).
  - split; [congruence|intros _; exact (fun H => H)].
  - split; [intros _; exact (fun H => H)|congruence].
  - destruct outsideAdd, outsideRemove; split; intros _; cbn;
      first [exact (fun H => H)|discriminate].
  - destruct (pending p !! n) as [w|] eqn:Hw; [|split; intros _; exact (fun H => H)].
    destruct (resume w a) as [t|] eqn:Ht; [|split; intros _; exact (fun H => H)].
    destruct (resumed_quiet t (ui p) (resume_known _ _ _ _ _ Hp Hw Ht)) as (_ & Hadd & Hrem).
    unfold dispatch. cbn. rewrite Hadd, Hrem. split; intros _; exact (fun H => H).
Qed.

Lemma menus_open_only_by_toggle_witness :
  effectClicked sunlight <> addMenuToggled /\
  (isAddMenuOpen (ui (step (replay [ addMenuToggled ] initialPage) (effectClicked sunlight))) =
     true ->
   isAddMenuOpen (ui (replay [ addMenuToggled ] initialPage)) = true).
Proof.
  split; [discriminate|].
  apply (menus_open_only_by_toggle [ addMenuToggled ] (effectClicked sunlight)).
  discriminate.
Defined.

(** X16: in a reachable page, only the download click saves a file: after
    any other event, answers included, the list of saved files is the
    one of before. *)
Theorem only_download_saves (evs : list Event) (ev : Event) :
  ev <> downloadClicked ->
  saved (step (replay evs initialPage) ev) = saved (replay evs initialPage).
Proof.
  pose proof (replay_consistent evs _ initialPage_consistent) as Hp.
  generalize dependent (replay evs initialPage). intros p Hp Hev.
  destruct ev as [[file|]|e| | | | |v|d|outsideAdd outsideRemove|n a]; cbn [step];
    try contradiction; try apply app_nil_r.
  - destruct (startsWith (File.type file) "image/") eqn:Htype; unfold dispatch;
      [rewrite run_handleImageUpload_image by assumption
      |rewrite run_handleImageUpload_other by assumption]; apply app_nil_r.
  - destruct (originalImage (ui p)) as [original|] eqn:Himg; unfold dispatch;
      [rewrite (run_handleEffectClick_image _ original) by assumption
      |rewrite run_handleEffectClick_no_image by assumption]; apply app_nil_r.
  - unfold handleVariationClick.
    destruct (lastAppliedConfig (ui p)) as [c|]; [|apply app_nil_r].
    destruct (originalImage (ui p)) as [original|] eqn:Himg; unfold dispatch;
      [rewrite (run_runEffect_image _ _ _ _ _ _ original) by assumption
      |rewrite run_runEffect_no_image by assumption]; apply app_nil_r.
  - destruct outsideAdd, outsideRemove; apply app_nil_r.
  - destruct (pending p !! n) as [w|] eqn:Hw; [|reflexivity].
    destruct (resume w a) as [t|] eqn:Ht; [|reflexivity].
    destruct (resumed_quiet t (ui p) (resume_known _ _ _ _ _ Hp Hw Ht)) as (Hquiet & _).
    unfold dispatch. cbn. rewrite Hquiet. apply app_nil_r.
Qed.

Lemma only_download_saves_witness :
  variationClicked <> downloadClicked /\
  saved (step (replay (scenario ++ [ downloadClicked ]) initialPage) variationClicked) =
    saved (replay (scenario ++ [ downloadClicked ]) initialPage).
Proof.
  split; [discriminate|].
  apply (only_download_saves (scenario ++ [ downloadClicked ]) variationClicked).
  discriminate.
Defined.

(** X17: in a reachable page, when the reader of an upload fires
    [onload], the new image is in place, the stored configuration is
    gone with the old one, the variation button is rendered disabled and
    a click on it changes nothing on the page. *)
Theorem upload_disables_variation (evs : list Event) (n : nat) (file : File.t)
    (k : ReaderEvent -> Task unit) (result : string) :
  pending (replay evs initialPage) !! n = Some (Waiting (readAsDataURL file) k) ->
  originalImage (ui (step (replay evs initialPage) (answered n (readerFired (onload result))))) =
    Some {| base64 := index1 (split ","%char result); mimeType := File.type file;
            name := File.name file |} /\
  disabled
    (variationButton
       (render (ui (step (replay evs initialPage)
                      (answered n (readerFired (onload result))))))) = true /\
  step (step (replay evs initialPage) (answered n (readerFired (onload result))))
    variationClicked =
    step (replay evs initialPage) (answered n (readerFired (onload result))).
Proof.
  intros Hn.
  destruct (replay_consistent evs _ initialPage_consistent) as [_ Hpending].
  pose proof (Forall_lookup_1 _ _ _ _ Hpending Hn) as Hk. cbn in Hk. subst k.
  cbn [step]. rewrite Hn. cbn [resume]. unfold dispatch. cbn.
  repeat split. rewrite app_nil_r. reflexivity.
Qed.

Lemma upload_disables_variation_witness :
  pending (replay (scenario ++ [ fileChanged (Some plain) ]) initialPage) !! 0%nat =
    Some (Waiting (readAsDataURL plain) (afterRead plain)) /\
  disabled
    (variationButton
       (render (ui (step (replay (scenario ++ [ fileChanged (Some plain) ]) initialPage)
                      (answered 0 (readerFired (onload "data:image/jpeg;base64,CCCC"))))))) =
    true.
Proof.
  assert (pending (replay (scenario ++ [ fileChanged (Some plain) ]) initialPage) !! 0%nat =
            Some (Waiting (readAsDataURL plain) (afterRead plain))) as Hn
    by (vm_compute; reflexivity).
  split; [exact Hn|].
  exact (proj1 (proj2 (upload_disables_variation _ 0 plain _
                         "data:image/jpeg;base64,CCCC" Hn))).
Defined.

(** X18: in every reachable page that is loading, no generated image is
    held: a result of before is dropped when a call starts, and an
    answer that brings one also ends the loading. *)
Theorem loading_holds_no_result (evs : list Event) :
  isLoading (ui (replay evs initialPage)) = true ->
  generatedImage (ui (replay evs initialPage)) = None.
Proof. apply loading_blank, replay_coherent, initialPage_coherent. Qed.

Lemma loading_holds_no_result_witness :
  isLoading (ui (replay (scenario ++ [ variationClicked ]) initialPage)) = true /\
  generatedImage (ui (replay (scenario ++ [ variationClicked ]) initialPage)) = None.
Proof.
  split; [reflexivity|].
  apply (loading_holds_no_result (scenario ++ [ variationClicked ])). reflexivity.
Defined.
